(** * CogniCal memory service ([src-tauri/src-python/main.py])

    A shallow embedding of the Python plugin module and of the part of its
    run-time environment it touches ([pathlib.Path], [Path.mkdir], [sys]),
    followed by the properties of the five exported functions.

    Conventions.
    - Python [str] is [string]; Python [int] is [Z]; a returned [dict]
      literal is an association list in the order the literal is written.
    - The two module globals [_kb_path] and [_initialized] live in a record
      threaded through every call together with the filesystem.
    - A Python function body is a computation [M A]: it reads and writes the
      world and either returns a value or raises an exception.  State written
      before a [raise] stays written, exactly as in Python. *)

From Stdlib Require Import ZArith Ascii String.
From stdpp Require Import base option list strings gmap fin_maps.

Local Open Scope string_scope.
Local Open Scope list_scope.
Set Warnings "-register-all".

(** ** Strings *)

Module Str.

(** [s.split(sep)] for a one-character separator. *)
Fixpoint split (sep : ascii) (s : string) : list string :=
  match s with
  | EmptyString => [EmptyString]
  | String c s' =>
      if Ascii.eqb c sep then EmptyString :: split sep s'
      else match split sep s' with
           | [] => [String c EmptyString]
           | w :: ws => String c w :: ws
           end
  end.

(** [sep.join(l)] *)
Fixpoint join (sep : string) (l : list string) : string :=
  match l with
  | [] => ""
  | [w] => w
  | w :: ws => w +:+ sep +:+ join sep ws
  end.

(** [c in s] for a character [c]. *)
Fixpoint contains (c : ascii) (s : string) : bool :=
  match s with
  | EmptyString => false
  | String d s' => Ascii.eqb c d || contains c s'
  end.

Definition hex_digit (n : N) : ascii :=
  match n with
  | 0 => "0" | 1 => "1" | 2 => "2" | 3 => "3" | 4 => "4" | 5 => "5"
  | 6 => "6" | 7 => "7" | 8 => "8" | 9 => "9" | 10 => "a" | 11 => "b"
  | 12 => "c" | 13 => "d" | 14 => "e" | _ => "f"
  end%N%char.

Definition dquote : ascii := ascii_of_N 34.

(** One character of [repr(s)] with [q] the chosen quote.  This is exact
    for ASCII text.  Bytes above 127 belong to UTF-8 sequences and are
    passed through, which is what Python prints for a printable character;
    the code points Python escapes there (the non-printable ones, such as
    U+00A0) are not told apart, so no statement below fixes the text of an
    error that names a path. *)
Definition repr_char (q c : ascii) : string :=
  let n := N_of_ascii c in
  if Ascii.eqb c q || Ascii.eqb c "\"%char then String "\"%char (String c "")
  else if (n =? 9)%N then "\t"
  else if (n =? 10)%N then "\n"
  else if (n =? 13)%N then "\r"
  else if (n <? 32)%N || (n =? 127)%N then
    String "\"%char (String "x"%char
      (String (hex_digit (n / 16)) (String (hex_digit (n mod 16)) "")))
  else String c "".

Fixpoint repr_body (q : ascii) (s : string) : string :=
  match s with
  | EmptyString => ""
  | String c s' => repr_char q c +:+ repr_body q s'
  end.

(** [repr(s)]: single quotes unless the text has a single quote and no
    double quote. *)
Definition repr (s : string) : string :=
  let q := if contains "'"%char s && negb (contains dquote s)
           then dquote else "'"%char in
  String q (repr_body q s +:+ String q "").

End Str.

(** ** Python values and dictionaries *)

Inductive value :=
| VNone
| VBool (b : bool)
| VStr (s : string)
| VList (l : list value).

(** A [dict] with string keys, in insertion order. *)
Definition dict := list (string * value).

Fixpoint dict_get (k : string) (d : dict) : option value :=
  match d with
  | [] => None
  | (k', v) :: d' => if String.eqb k k' then Some v else dict_get k d'
  end.


(** ** [pathlib.PurePosixPath] *)

(** A parsed path: the root ([""], ["/"] or ["//"]) and the components that
    follow it.  The drive is always empty on POSIX and is left out. *)
Record Path := mkPath { path_root : string; path_tail : list string }.

Module PurePath.

(** [posixpath.splitroot]: one leading slash, or three and more, give the
    root ["/"]; exactly two give ["//"]. *)
Definition splitroot (p : string) : string * string :=
  match p with
  | String "/" (String "/" (String "/" r)) => ("/", String "/" (String "/" r))
  | String "/" (String "/" r) => ("//", r)
  | String "/" r => ("/", r)
  | _ => ("", p)
  end.

Definition keep_part (x : string) : bool :=
  negb (String.eqb x "") && negb (String.eqb x ".").

(** [PurePath._parse_path]: empty components and ["."] are dropped,
    [".."] is kept. *)
Definition parse (path : string) : Path :=
  match path with
  | EmptyString => mkPath "" []
  | _ => let '(root, rel) := splitroot path in
         mkPath root (List.filter keep_part (Str.split "/" rel))
  end.

(** [str(p)]: the empty relative path prints as ["."]. *)
Definition str (p : Path) : string :=
  match path_root p, path_tail p with
  | EmptyString, [] => "."
  | r, t => r +:+ Str.join "/" t
  end.

(** [p.parent]: the path without its last component; a path with no
    component is its own parent. *)
Definition parent (p : Path) : Path :=
  mkPath (path_root p) (removelast (path_tail p)).

End PurePath.

(** ** Exceptions *)

Inductive errno := ENOENT | EACCES | EEXIST | ENOTDIR | ENAMETOOLONG.

(** The exceptions the module can meet.  [OSError e f] stands for the
    subclass Python picks from the error number ([FileNotFoundError],
    [PermissionError], [FileExistsError], [NotADirectoryError]) and for
    plain [OSError] on [ENAMETOOLONG]. *)
Inductive exn :=
| OSError (e : errno) (filename : string)
| ValueError (msg : string)
| AttributeError (msg : string)
| RecursionError (msg : string).

Definition errno_eqb (a b : errno) : bool :=
  match a, b with
  | ENOENT, ENOENT | EACCES, EACCES | EEXIST, EEXIST | ENOTDIR, ENOTDIR
  | ENAMETOOLONG, ENAMETOOLONG => true
  | _, _ => false
  end.

Definition errno_code (e : errno) : string :=
  match e with
  | ENOENT => "2" | EACCES => "13" | EEXIST => "17" | ENOTDIR => "20"
  | ENAMETOOLONG => "36"
  end.

Definition strerror (e : errno) : string :=
  match e with
  | ENOENT => "No such file or directory"
  | EACCES => "Permission denied"
  | EEXIST => "File exists"
  | ENOTDIR => "Not a directory"
  | ENAMETOOLONG => "File name too long"
  end.

(** [str(e)] *)
Definition exn_str (e : exn) : string :=
  match e with
  | OSError n f => "[Errno " +:+ errno_code n +:+ "] " +:+ strerror n +:+ ": " +:+ Str.repr f
  | ValueError m => m
  | AttributeError m => m
  | RecursionError m => m
  end.

(** [isinstance(e, FileNotFoundError)] and [isinstance(e, OSError)] *)
Definition is_FileNotFoundError (e : exn) : bool :=
  match e with OSError ENOENT _ => true | _ => false end.

Definition is_OSError (e : exn) : bool :=
  match e with OSError _ _ => true | _ => false end.

(** ** The filesystem *)

(** A node is a regular file or a directory; a directory records whether
    the process may create entries in it. *)
Inductive node := File | Dir (writable : bool).

(** The filesystem as seen by the process: every node other than the root,
    keyed by its absolute path (the component names from the root); the root
    directory, which always exists; the working directory; and whether a
    directory the process creates is writable for it (the mode [0o777]
    that [Path.mkdir] asks for, less the bits of the process umask).

    Out of the model: symbolic links, search permission, a full or
    read-only device.  The statements below are about what the module does
    with the answers [os.mkdir] and [os.stat] give; none of them promises
    that [os.mkdir] creates a directory. *)
Record filesystem := mkFs {
  nodes : gmap (list string) node;
  root_writable : bool;
  cwd : list string;
  new_dir_writable : bool
}.

Module Fs.

(** The limits of Linux on the bytes of one name and of a whole path, its
    final NUL included. *)
Definition NAME_MAX : nat := 255.
Definition PATH_MAX : nat := 4096.

Definition too_long (c : string) : bool := Nat.ltb NAME_MAX (String.length c).
#[global] Arguments too_long : simpl never.

Definition lookup (fs : filesystem) (p : list string) : option node :=
  match p with
  | [] => Some (Dir (root_writable fs))
  | _ => nodes fs !! p
  end.

(** One step of path resolution from directory [cur]. *)
Definition enter (cur : list string) (c : string) : list string :=
  if String.eqb c ".." then removelast cur else cur ++ [c].

(** Where resolution of a parsed path starts. *)
Definition start (fs : filesystem) (p : Path) : list string :=
  match path_root p with
  | EmptyString => cwd fs
  | _ => []
  end.

(** [stat]: walk the components from [cur]; each directory walked through
    must exist and be a directory, and a name looked up in it must not be
    longer than [NAME_MAX]. *)
Fixpoint stat_at (fs : filesystem) (cur : list string) (comps : list string)
  : errno + node :=
  match comps with
  | [] => match lookup fs cur with
          | None => inl ENOENT
          | Some n => inr n
          end
  | c :: rest =>
      match lookup fs cur with
      | None => inl ENOENT
      | Some File => inl ENOTDIR
      | Some (Dir _) =>
          if too_long c then inl ENAMETOOLONG
          else stat_at fs (enter cur c) rest
      end
  end.

(** [mkdir]: walk to the parent of the last component, then create the
    directory there.  An existing target (also ["."], [".."] and the
    root) is [EEXIST], checked before the permission on the parent. *)
Fixpoint mkdir_at (fs : filesystem) (cur : list string) (comps : list string)
  : errno + filesystem :=
  match comps with
  | [] => match lookup fs cur with
          | None => inl ENOENT
          | Some _ => inl EEXIST
          end
  | c :: rest =>
      match lookup fs cur with
      | None => inl ENOENT
      | Some File => inl ENOTDIR
      | Some (Dir w) =>
          if too_long c then inl ENAMETOOLONG else
          match rest with
          | _ :: _ => mkdir_at fs (enter cur c) rest
          | [] =>
              if String.eqb c ".." then inl EEXIST
              else match lookup fs (cur ++ [c]) with
                   | Some _ => inl EEXIST
                   | None =>
                       if w
                       then inr (mkFs (<[cur ++ [c] := Dir (new_dir_writable fs)]>
                                         (nodes fs))
                                      (root_writable fs) (cwd fs)
                                      (new_dir_writable fs))
                       else inl EACCES
                   end
          end
      end
  end.

End Fs.

(** ** The world and the computation monad *)

(** [sys.version], [sys.platform], [sys.executable], fixed for the life of
    the process, and the room the interpreter's recursion limit
    ([sys.getrecursionlimit()]) leaves, when the host calls the module, for
    nested calls of [Path.mkdir] on parents. *)
Record sysinfo := mkSys {
  version : string;
  platform : string;
  executable : string;
  recursion_room : nat
}.

(** The module's global state. *)
Record globals := mkGlobals { _kb_path : option Path; _initialized : bool }.

Record world := mkWorld { mem : globals; disk : filesystem; sys : sysinfo }.

(** The module as loaded: lines 22 and 23. *)
Definition initial_globals : globals := mkGlobals None false.

Definition initial_world (fs : filesystem) (si : sysinfo) : world :=
  mkWorld initial_globals fs si.

Inductive outcome (A : Type) :=
| Return (a : A)
| Raise (e : exn).
Arguments Return {A} a.
Arguments Raise {A} e.

Definition M (A : Type) : Type := world -> outcome A * world.

#[global] Instance M_ret : MRet M := fun A a w => (Return a, w).

#[global] Instance M_bind : MBind M := fun A B f m w =>
  match m w with
  | (Return a, w') => f a w'
  | (Raise e, w') => (Raise e, w')
  end.

Definition raise {A} (e : exn) : M A := fun w => (Raise e, w).

(** [try: body except Exception as e: handler e].  The handler runs in the
    world the body left behind. *)
Definition try_except {A} (body : M A) (handler : exn -> M A) : M A := fun w =>
  match body w with
  | (Return a, w') => (Return a, w')
  | (Raise e, w') => handler e w'
  end.

Definition get_kb_path : M (option Path) := fun w => (Return (_kb_path (mem w)), w).
Definition get_initialized : M bool := fun w => (Return (_initialized (mem w)), w).
Definition get_sys : M sysinfo := fun w => (Return (sys w), w).

Definition set_kb_path (p : option Path) : M unit := fun w =>
  (Return tt, mkWorld (mkGlobals p (_initialized (mem w))) (disk w) (sys w)).

Definition set_initialized (b : bool) : M unit := fun w =>
  (Return tt, mkWorld (mkGlobals (_kb_path (mem w)) b) (disk w) (sys w)).

(** ** [os] and [pathlib.Path] *)

Definition NUL : ascii := ascii_of_N 0.

(** The system call takes a path of fewer than [PATH_MAX] bytes. *)
Definition path_fits (p : Path) : bool :=
  Nat.ltb (String.length (PurePath.str p)) Fs.PATH_MAX.
#[global] Arguments path_fits : simpl never.

(** [os.mkdir(p)]: a path with a NUL character is refused before the
    system call, a path that is too long by it. *)
Definition os_mkdir (p : Path) : M unit := fun w =>
  if Str.contains NUL (PurePath.str p)
  then (Raise (ValueError "embedded null byte"), w)
  else if negb (path_fits p)
  then (Raise (OSError ENAMETOOLONG (PurePath.str p)), w)
  else match Fs.mkdir_at (disk w) (Fs.start (disk w) p) (path_tail p) with
       | inl e => (Raise (OSError e (PurePath.str p)), w)
       | inr fs' => (Return tt, mkWorld (mem w) fs' (sys w))
       end.

(** [os.stat(p)] *)
Definition os_stat (p : Path) : M node := fun w =>
  if Str.contains NUL (PurePath.str p)
  then (Raise (ValueError "embedded null byte"), w)
  else if negb (path_fits p)
  then (Raise (OSError ENAMETOOLONG (PurePath.str p)), w)
  else match Fs.stat_at (disk w) (Fs.start (disk w) p) (path_tail p) with
       | inl e => (Raise (OSError e (PurePath.str p)), w)
       | inr n => (Return n, w)
       end.

Definition is_Dir (n : node) : bool :=
  match n with Dir _ => true | File => false end.

(** [pathlib._ignore_error] restricted to the errors of this model. *)
Definition ignore_error (e : exn) : bool :=
  match e with
  | OSError ENOENT _ | OSError ENOTDIR _ => true
  | _ => false
  end.

(** [Path.is_dir()]: a missing path and a path with a NUL character are
    not directories; [ENAMETOOLONG] is not among the errors it swallows. *)
Definition Path_is_dir (p : Path) : M bool :=
  try_except (n ← os_stat p; mret (is_Dir n))
    (fun e => match e with
              | OSError _ _ => if ignore_error e then mret false else raise e
              | ValueError _ => mret false
              | _ => raise e
              end).

(** The [except OSError] arm of [Path.mkdir]. *)
Definition mkdir_exists (p : Path) (exist_ok : bool) (e : exn) : M unit :=
  if negb exist_ok then raise e
  else d ← Path_is_dir p; if negb d then raise e else mret tt.

(** [Path.mkdir(parents=False, exist_ok=exist_ok)] *)
Definition mkdir_here (p : Path) (exist_ok : bool) : M unit :=
  try_except (os_mkdir p)
    (fun e => if is_FileNotFoundError e then raise e
              else if is_OSError e then mkdir_exists p exist_ok e
              else raise e).

(** [Path.mkdir(parents=True, exist_ok=exist_ok)] on the path with root
    [root] and components [rev rtail].  The recursive call is on
    [self.parent], whose components are [rev (tl rtail)]; a path with no
    component is its own parent, and there the error is raised again.
    [room] is the number of nested calls on parents the interpreter still
    allows; with none left the call on the parent raises [RecursionError]. *)
Fixpoint mkdir_parents (root : string) (rtail : list string) (exist_ok : bool)
    (room : nat) : M unit :=
  let self := mkPath root (rev rtail) in
  try_except (os_mkdir self)
    (fun e => if is_FileNotFoundError e then
                match rtail with
                | [] => raise e
                | _ :: rparent =>
                    match room with
                    | O => raise (RecursionError "maximum recursion depth exceeded")
                    | S room' =>
                        mkdir_parents root rparent true room' ;;
                        mkdir_here self exist_ok
                    end
                end
              else if is_OSError e then mkdir_exists self exist_ok e
              else raise e).

(** [p.mkdir(parents=parents, exist_ok=exist_ok)] *)
Definition Path_mkdir (p : Path) (parents exist_ok : bool) : M unit := fun w =>
  if parents
  then mkdir_parents (path_root p) (rev (path_tail p)) exist_ok
         (recursion_room (sys w)) w
  else mkdir_here p exist_ok w.

(** ** The module [main.py] *)

(** [str(_kb_path)] for the optional global. *)
Definition str_kb_path (o : option Path) : string :=
  match o with
  | Some p => PurePath.str p
  | None => "None"
  end.

(** [_kb_path.mkdir(parents=True, exist_ok=True)]: the receiver is read
    back from the global. *)
Definition kb_path_mkdir : M unit :=
  self ← get_kb_path;
  match self with
  | Some p => Path_mkdir p true true
  | None => raise (AttributeError "'NoneType' object has no attribute 'mkdir'")
  end.

(** Lines 25 to 56. *)
Definition initialize_memory (kb_path_str : string) : M dict :=
  try_except
    (set_kb_path (Some (PurePath.parse kb_path_str)) ;;
     kb_path_mkdir ;;
     set_initialized true ;;
     kb ← get_kb_path;
     mret [("success", VBool true);
           ("message", VStr ("Memory service initialized at " +:+ str_kb_path kb));
           ("kb_path", VStr (str_kb_path kb))])
    (fun e =>
       mret [("success", VBool false);
             ("message", VStr ("Failed to initialize: " +:+ exn_str e));
             ("error", VStr (exn_str e))]).

(** Lines 59 to 92.  [limit] is a parameter the body never reads. *)
Definition search_memory (query : string) (limit : Z) : M dict :=
  init ← get_initialized;
  if negb init then
    mret [("success", VBool false);
          ("message", VStr "Memory service not initialized");
          ("results", VList [])]
  else
    try_except
      (mret [("success", VBool true);
             ("query", VStr query);
             ("results", VList []);
             ("message", VStr "Search functionality coming soon")])
      (fun e =>
         mret [("success", VBool false);
               ("message", VStr ("Search failed: " +:+ exn_str e));
               ("error", VStr (exn_str e));
               ("results", VList [])]).

(** The default of [limit]. *)
Definition search_memory_default_limit : Z := 5.

(** Lines 95 to 132. *)
Definition store_conversation (conversation_id user_message assistant_message : string)
    (metadata : option (gmap string string)) : M dict :=
  init ← get_initialized;
  if negb init then
    mret [("success", VBool false);
          ("message", VStr "Memory service not initialized")]
  else
    try_except
      (mret [("success", VBool true);
             ("conversation_id", VStr conversation_id);
             ("message", VStr "Conversation stored successfully")])
      (fun e =>
         mret [("success", VBool false);
               ("message", VStr ("Storage failed: " +:+ exn_str e));
               ("error", VStr (exn_str e))]).

(** Lines 135 to 154.  A [Path] object is always true in a condition, so
    [str(_kb_path) if _kb_path else None] is [None] only for the unset
    global. *)
Definition get_memory_status : M dict :=
  try_except
    (init ← get_initialized;
     kb ← get_kb_path;
     si ← get_sys;
     avail ← get_initialized;
     mret [("initialized", VBool init);
           ("kb_path", match kb with Some p => VStr (PurePath.str p) | None => VNone end);
           ("python_version", VStr (version si));
           ("available", VBool avail)])
    (fun e =>
       mret [("initialized", VBool false);
             ("error", VStr (exn_str e));
             ("available", VBool false)]).

(** Lines 157 to 170. *)
Definition test_connection : M dict :=
  si ← get_sys;
  mret [("success", VBool true);
        ("message", VStr "Python plugin is working!");
        ("python_version", VStr (version si));
        ("platform", VStr (platform si));
        ("executable", VStr (executable si))].

(** ** Calls across the plugin boundary *)

(** One call of a registered function ([_tauri_plugin_functions]).  A
    search call may leave [limit] out and get the default. *)
Inductive op :=
| Initialize (kb_path_str : string)
| Search (query : string) (limit : option Z)
| Store (conversation_id user_message assistant_message : string)
        (metadata : option (gmap string string))
| GetStatus
| TestConnection.

Definition call (o : op) : M dict :=
  match o with
  | Initialize s => initialize_memory s
  | Search q l => search_memory q (default search_memory_default_limit l)
  | Store c u a m => store_conversation c u a m
  | GetStatus => get_memory_status
  | TestConnection => test_connection
  end.

(** The world after a sequence of calls, whatever each one returned. *)
Fixpoint exec (ops : list op) (w : world) : world :=
  match ops with
  | [] => w
  | o :: rest => exec rest (snd (call o w))
  end.

(** What each call of a sequence returned, in order. *)
Fixpoint trace (ops : list op) (w : world) : list (op * outcome dict) :=
  match ops with
  | [] => []
  | o :: rest => (o, fst (call o w)) :: trace rest (snd (call o w))
  end.

(** States reachable from a freshly loaded module. *)
Definition reachable (w : world) : Prop :=
  exists fs si ops, w = exec ops (initial_world fs si).

(** ** Reading a result *)

(** The value under ["success"], when it is a boolean. *)
Definition success_flag (d : dict) : option bool :=
  match dict_get "success" d with
  | Some (VBool b) => Some b
  | _ => None
  end.

Definition available_flag (d : dict) : option bool :=
  match dict_get "available" d with
  | Some (VBool b) => Some b
  | _ => None
  end.

(** A call succeeded: it returned a map whose ["success"] is [True]. *)
Definition succeeded (r : outcome dict) : bool :=
  match r with
  | Return d => match success_flag d with Some true => true | _ => false end
  | Raise _ => false
  end.

(** A call failed without raising: a map whose ["success"] is [False]. *)
Definition failed (r : outcome dict) : bool :=
  match r with
  | Return d => match success_flag d with Some false => true | _ => false end
  | Raise _ => false
  end.

(** The stored path names a directory that exists: [_kb_path] is set and
    [_kb_path.is_dir()] returns [True]. *)
Definition kb_dir_exists (w : world) : bool :=
  match _kb_path (mem w) with
  | None => false
  | Some p => match fst (Path_is_dir p w) with
              | Return true => true
              | _ => false
              end
  end.

(** ** Sample worlds *)

Definition sample_sys : sysinfo :=
  mkSys "3.12.3 (main)" "linux" "/usr/bin/python3" 900.

(** A disk with a writable root, a writable [/home], a read-only [/etc]
    and a regular file [/etc/passwd]; the process runs in [/home] with a
    umask that leaves its new directories writable. *)
Definition sample_fs : filesystem :=
  mkFs (<[ ["home"] := Dir true ]>
        (<[ ["etc"] := Dir false ]>
        (<[ ["etc"; "passwd"] := File ]> ∅)))
       true ["home"] true.

Definition sample_world : world := initial_world sample_fs sample_sys.

(** ** Notions used by the statements *)

(** [fs'] has every node of [fs], and the same root and working
    directory. *)
Definition fs_extends (fs fs' : filesystem) : Prop :=
  root_writable fs' = root_writable fs /\
  cwd fs' = cwd fs /\
  forall p n, Fs.lookup fs p = Some n -> Fs.lookup fs' p = Some n.

(** Whether [Path.is_dir] answers [True] on a given disk. *)
Definition dir_at (fs : filesystem) (p : Path) : bool :=
  negb (Str.contains NUL (PurePath.str p)) &&
  path_fits p &&
  match Fs.stat_at fs (Fs.start fs p) (path_tail p) with
  | inr (Dir _) => true
  | _ => false
  end.

(** How [Path.is_dir] ends on a given disk. *)
Definition is_dir_outcome (fs : filesystem) (p : Path) : outcome bool :=
  if Str.contains NUL (PurePath.str p) then Return false
  else if negb (path_fits p) then Raise (OSError ENAMETOOLONG (PurePath.str p))
  else match Fs.stat_at fs (Fs.start fs p) (path_tail p) with
       | inl ENAMETOOLONG => Raise (OSError ENAMETOOLONG (PurePath.str p))
       | inl _ => Return false
       | inr n => Return (is_Dir n)
       end.

(** The working directory of the process exists and is a directory. *)
Definition cwd_is_dir (fs : filesystem) : bool :=
  match Fs.lookup fs (cwd fs) with
  | Some (Dir _) => true
  | _ => false
  end.

(** A trace entry that is an [initialize_memory] call which succeeded. *)
Definition initialize_succeeded (c : op * outcome dict) : bool :=
  match fst c with
  | Initialize _ => succeeded (snd c)
  | _ => false
  end.

(** A trace entry that is an [initialize_memory] call which failed. *)
Definition initialize_failed (c : op * outcome dict) : bool :=
  match fst c with
  | Initialize _ => failed (snd c)
  | _ => false
  end.

(** The three maps [initialize_memory], [search_memory] and
    [store_conversation] build on their normal paths. *)
Definition initialize_ok (p : Path) : dict :=
  [("success", VBool true);
   ("message", VStr ("Memory service initialized at " +:+ PurePath.str p));
   ("kb_path", VStr (PurePath.str p))].

Definition initialize_failure (e : exn) : dict :=
  [("success", VBool false);
   ("message", VStr ("Failed to initialize: " +:+ exn_str e));
   ("error", VStr (exn_str e))].

Definition with_globals (g : globals) (w : world) : world :=
  mkWorld g (disk w) (sys w).

Definition with_disk (fs : filesystem) (w : world) : world :=
  mkWorld (mem w) fs (sys w).

(** What a call of [mkdir] on [p] in world [w] leaves behind: the globals
    and [sys] are untouched, the disk only grows, and after a normal return
    the path is a directory. *)
Definition mkdir_post (p : Path) (w : world) (r : outcome unit * world) : Prop :=
  exists fs', snd r = with_disk fs' w /\
              fs_extends (disk w) fs' /\
              (fst r = Return tt -> dir_at fs' p = true).

(** The service invariant of the data model: once [_initialized] is set,
    [_kb_path] names a directory that exists. *)
Definition kb_invariant (w : world) : Prop :=
  _initialized (mem w) = true -> kb_dir_exists w = true.

(** The resolved form of a path, as the word is used of paths: absolute,
    read from the working directory when the path is relative, with the
    [..] steps carried out.  [initialize_memory] is compared against it. *)
Definition resolved (fs : filesystem) (p : Path) : Path :=
  mkPath (match path_root p with EmptyString => "/" | r => r end)
         (fold_left Fs.enter (path_tail p) (Fs.start fs p)).


(** The map of the [except] arm of [get_memory_status], lines 150 to 154. *)
Definition status_failure (e : exn) : dict :=
  [("initialized", VBool false);
   ("error", VStr (exn_str e));
   ("available", VBool false)].


(** The maps of the stubs and of the guard on [_initialized]. *)
Definition search_ok (query : string) : dict :=
  [("success", VBool true);
   ("query", VStr query);
   ("results", VList []);
   ("message", VStr "Search functionality coming soon")].

Definition search_not_initialized : dict :=
  [("success", VBool false);
   ("message", VStr "Memory service not initialized");
   ("results", VList [])].

Definition store_ok (conversation_id : string) : dict :=
  [("success", VBool true);
   ("conversation_id", VStr conversation_id);
   ("message", VStr "Conversation stored successfully")].

Definition store_not_initialized : dict :=
  [("success", VBool false);
   ("message", VStr "Memory service not initialized")].

(** ** Notions used by the further properties *)

(** The disk [fs'] is [fs] with nothing removed, nothing altered, and
    nothing added but directories. *)
Definition fs_grows (fs fs' : filesystem) : Prop :=
  fs_extends fs fs' /\
  forall p n, Fs.lookup fs' p = Some n -> Fs.lookup fs p = Some n \/ is_Dir n = true.

(** A computation that leaves [sys] alone and whose effect on the disk is
    within [fs_grows], however it ends. *)
Definition disk_grows {A} (m : M A) : Prop :=
  forall w, fs_grows (disk w) (disk (snd (m w))) /\ sys (snd (m w)) = sys w.

Definition is_initialize (o : op) : bool :=
  match o with
  | Initialize _ => true
  | _ => false
  end.

(** The argument of the last [initialize_memory] call of a sequence. *)
Fixpoint last_initialize (ops : list op) : option string :=
  match ops with
  | [] => None
  | o :: rest =>
      match last_initialize rest with
      | Some s => Some s
      | None => match o with
                | Initialize s => Some s
                | _ => None
                end
      end
  end.

(** What [PurePath.parse] produces: one of the three roots, and components
    that are non-empty, not [.] and free of the separator. *)
Definition path_component (x : string) : Prop :=
  PurePath.keep_part x = true /\ Str.contains "/" x = false.

Definition wf_path (p : Path) : Prop :=
  (path_root p = "" \/ path_root p = "/" \/ path_root p = "//") /\
  Forall path_component (path_tail p).

(** * Properties *)

(** ** Parsing and printing, on examples *)

Example parse_empty : PurePath.str (PurePath.parse "") = ".".
Proof. reflexivity. Qed.

Example parse_normalises :
  PurePath.str (PurePath.parse "/var//lib/./cognical/") = "/var/lib/cognical".
Proof. reflexivity. Qed.

Example parse_keeps_dotdot :
  PurePath.parse "kb/../data" = mkPath "" ["kb"; ".."; "data"].
Proof. reflexivity. Qed.

Example parse_two_slashes : PurePath.str (PurePath.parse "//srv/kb") = "//srv/kb".
Proof. reflexivity. Qed.

Example parse_three_slashes : PurePath.str (PurePath.parse "///srv/kb") = "/srv/kb".
Proof. reflexivity. Qed.

Example parse_relative_stays_relative : PurePath.str (PurePath.parse "data/kb") = "data/kb".
Proof. reflexivity. Qed.

Example repr_plain : Str.repr "kb" = "'kb'".
Proof. reflexivity. Qed.

Example repr_control : Str.repr (String (ascii_of_N 0) "b") = "'\x00b'".
Proof. reflexivity. Qed.


(** ** The filesystem model *)

Section FsFacts.

Implicit Types (fs : filesystem) (cur comps : list string) (n : node).

Lemma fs_extends_refl fs : fs_extends fs fs.
Proof. by repeat split. Qed.

Lemma snoc_not_nil (cur : list string) (c : string) : cur ++ [c] <> [].
Proof. by destruct cur. Qed.

Lemma lookup_snoc fs cur c : Fs.lookup fs (cur ++ [c]) = nodes fs !! (cur ++ [c]).
Proof. by destruct cur. Qed.

(** Creating a directory that was missing keeps everything else. *)
Lemma insert_extends fs cur c :
  Fs.lookup fs (cur ++ [c]) = None ->
  fs_extends fs (mkFs (<[cur ++ [c] := Dir (new_dir_writable fs)]> (nodes fs))
                      (root_writable fs) (cwd fs) (new_dir_writable fs)).
Proof.
  intros Hnone. repeat split. intros p n Hp.
  destruct p as [|x p]; [exact Hp|].
  cbn in *. rewrite lookup_insert_ne; [exact Hp|].
  intros Heq. rewrite lookup_snoc, Heq in Hnone. congruence.
Qed.

Lemma mkdir_at_extends fs fs' comps : forall cur,
  Fs.mkdir_at fs cur comps = inr fs' -> fs_extends fs fs'.
Proof.
  induction comps as [|c rest IH]; intros cur; cbn.
  - destruct (Fs.lookup fs cur); discriminate.
  - destruct (Fs.lookup fs cur) as [[|w]|]; try discriminate.
    destruct (Fs.too_long c); [discriminate|].
    destruct rest as [|c' rest'].
    + destruct (String.eqb c ".."); [discriminate|].
      destruct (Fs.lookup fs (cur ++ [c])) eqn:Hnew; [discriminate|].
      destruct w; [|discriminate].
      intros [= <-]. by apply insert_extends.
    + apply IH.
Qed.

(** A successful [mkdir] leaves a directory behind. *)
Lemma mkdir_at_stat fs fs' comps : forall cur,
  Fs.mkdir_at fs cur comps = inr fs' ->
  Fs.stat_at fs' cur comps = inr (Dir (new_dir_writable fs)).
Proof.
  intros cur0 H0.
  destruct (mkdir_at_extends _ _ _ _ H0) as (_ & _ & Hext).
  revert cur0 H0.
  induction comps as [|c rest IH]; intros cur; cbn.
  - destruct (Fs.lookup fs cur); discriminate.
  - destruct (Fs.lookup fs cur) as [[|w]|] eqn:Hcur; try discriminate.
    rewrite (Hext _ _ Hcur).
    destruct (Fs.too_long c); [discriminate|].
    destruct rest as [|c' rest'].
    + destruct (String.eqb c "..") eqn:Hdd; [discriminate|].
      destruct (Fs.lookup fs (cur ++ [c])) eqn:Hnew; [discriminate|].
      destruct w; [|discriminate].
      intros [= <-]. unfold Fs.enter. rewrite Hdd. cbn.
      rewrite lookup_snoc. cbn. by rewrite lookup_insert_eq.
    + apply IH.
Qed.

(** [mkdir] on a path that [stat] finds is refused with [EEXIST]. *)
Lemma stat_at_mkdir_at fs comps : forall cur n,
  Fs.stat_at fs cur comps = inr n ->
  Fs.mkdir_at fs cur comps = inl EEXIST.
Proof.
  induction comps as [|c rest IH]; intros cur n; cbn.
  - by destruct (Fs.lookup fs cur).
  - destruct (Fs.lookup fs cur) as [[|w]|]; try discriminate.
    destruct (Fs.too_long c); [discriminate|].
    destruct rest as [|c' rest'].
    + unfold Fs.enter. cbn.
      destruct (String.eqb c ".."); [done|].
      by destruct (Fs.lookup fs (cur ++ [c])).
    + apply IH.
Qed.

(** [stat] fails with one of three errors; [is_dir] swallows the first
    two. *)
Lemma stat_at_errors fs comps : forall cur e,
  Fs.stat_at fs cur comps = inl e -> e = ENOENT \/ e = ENOTDIR \/ e = ENAMETOOLONG.
Proof.
  induction comps as [|c rest IH]; intros cur e; cbn.
  - destruct (Fs.lookup fs cur); [discriminate|]. intros [= <-]. by left.
  - destruct (Fs.lookup fs cur) as [[|w]|].
    + intros [= <-]. by right; left.
    + destruct (Fs.too_long c); [|apply IH]. intros [= <-]. by right; right.
    + intros [= <-]. by left.
Qed.

(** [mkdir] and [stat] meet a name that is too long on the same paths. *)
Lemma mkdir_at_too_long fs comps : forall cur,
  Fs.mkdir_at fs cur comps = inl ENAMETOOLONG <->
  Fs.stat_at fs cur comps = inl ENAMETOOLONG.
Proof.
  induction comps as [|c rest IH]; intros cur; cbn.
  - by destruct (Fs.lookup fs cur).
  - destruct (Fs.lookup fs cur) as [[|w]|]; [done| |done].
    destruct (Fs.too_long c) eqn:Hlong; [done|].
    destruct rest as [|c' rest']; [|apply IH].
    unfold Fs.enter. cbn.
    destruct (String.eqb c "..").
    + by destruct (Fs.lookup fs (removelast cur)).
    + destruct (Fs.lookup fs (cur ++ [c])); [done|]. by destruct w.
Qed.

End FsFacts.

(** ** [pathlib.Path] *)

Section PathFacts.

Implicit Types (p : Path) (w : world) (e : exn).

Lemma parent_of_rev (root : string) (c : string) (rparent : list string) :
  PurePath.parent (mkPath root (rev (c :: rparent))) = mkPath root (rev rparent).
Proof. unfold PurePath.parent. cbn. by rewrite removelast_last. Qed.

(** [is_dir] never writes. *)
Lemma Path_is_dir_eq p w : Path_is_dir p w = (is_dir_outcome (disk w) p, w).
Proof.
  unfold Path_is_dir, try_except, mbind, M_bind, os_stat, is_dir_outcome.
  destruct (Str.contains NUL (PurePath.str p)); [done|].
  destruct (path_fits p); [|done]. cbn [negb].
  destruct (Fs.stat_at _ _ _) as [e|n] eqn:Hst; cbn.
  - by destruct (stat_at_errors _ _ _ _ Hst) as [-> | [-> | ->]].
  - by destruct n.
Qed.

(** It answers [True] exactly where [dir_at] holds; else it answers
    [False] or raises on a name or path that is too long. *)
Lemma is_dir_outcome_cases (fs : filesystem) p :
  (dir_at fs p = true /\ is_dir_outcome fs p = Return true) \/
  (dir_at fs p = false /\
   (is_dir_outcome fs p = Return false \/
    is_dir_outcome fs p = Raise (OSError ENAMETOOLONG (PurePath.str p)))).
Proof.
  unfold dir_at, is_dir_outcome.
  destruct (Str.contains NUL (PurePath.str p)); [right; split; [done | by left]|].
  destruct (path_fits p); [|right; split; [done | by right]].
  destruct (Fs.stat_at _ _ _) as [[]|[|b]]; cbn;
    first [by left | right; split; [done | by left] | right; split; [done | by right]].
Qed.

Lemma is_dir_outcome_dir (fs : filesystem) p :
  dir_at fs p = true -> is_dir_outcome fs p = Return true.
Proof. intros Hd. destruct (is_dir_outcome_cases fs p) as [[_ H] | [H _]]; congruence. Qed.

(** The outcomes of [os.mkdir]: a new directory on a disk that has
    otherwise only grown, or an exception and nothing written. *)
Lemma os_mkdir_cases p w :
  (exists fs', os_mkdir p w = (Return tt, with_disk fs' w) /\
               fs_extends (disk w) fs' /\ dir_at fs' p = true) \/
  (exists e, os_mkdir p w = (Raise e, w)).
Proof.
  unfold os_mkdir, dir_at.
  destruct (Str.contains NUL (PurePath.str p)) eqn:Hnul; [by right; eexists|].
  destruct (path_fits p) eqn:Hfits; [|by right; eexists]. cbn [negb].
  destruct (Fs.mkdir_at _ _ _) as [e|fs'] eqn:Hmk; [by right; eexists|].
  left. exists fs'. split; [done|].
  pose proof (mkdir_at_extends _ _ _ _ Hmk) as Hext. split; [done|].
  destruct Hext as (_ & Hcwd & _).
  assert (Fs.start fs' p = Fs.start (disk w) p) as ->.
  { unfold Fs.start. by rewrite Hcwd. }
  by rewrite (mkdir_at_stat _ _ _ _ Hmk).
Qed.

(** [os.mkdir] on an existing directory raises [FileExistsError]. *)
Lemma os_mkdir_existing p w :
  dir_at (disk w) p = true ->
  os_mkdir p w = (Raise (OSError EEXIST (PurePath.str p)), w).
Proof.
  unfold os_mkdir, dir_at.
  destruct (Str.contains NUL (PurePath.str p)); [done|].
  destruct (path_fits p); [|done]. cbn.
  destruct (Fs.stat_at _ _ _) as [|n] eqn:Hst; [done|].
  by rewrite (stat_at_mkdir_at _ _ _ _ Hst).
Qed.

Lemma with_disk_id w : with_disk (disk w) w = w.
Proof. by destruct w. Qed.

Lemma with_disk_twice fs fs' w : with_disk fs' (with_disk fs w) = with_disk fs' w.
Proof. done. Qed.

Lemma fs_extends_trans fs1 fs2 fs3 :
  fs_extends fs1 fs2 -> fs_extends fs2 fs3 -> fs_extends fs1 fs3.
Proof.
  intros (Hr1 & Hc1 & H1) (Hr2 & Hc2 & H2).
  split; [congruence|]. split; [congruence|]. eauto.
Qed.

Lemma mkdir_post_same p w (r : outcome unit) :
  (r = Return tt -> dir_at (disk w) p = true) -> mkdir_post p w (r, w).
Proof.
  intros H. exists (disk w). rewrite with_disk_id.
  split; [done|]. split; [apply fs_extends_refl|done].
Qed.

Lemma mkdir_exists_post p exist_ok e w :
  mkdir_post p w (mkdir_exists p exist_ok e w).
Proof.
  unfold mkdir_exists. destruct exist_ok; cbn.
  - unfold mbind, M_bind. rewrite Path_is_dir_eq.
    destruct (is_dir_outcome_cases (disk w) p) as [[Hd ->] | [Hd [-> | ->]]];
      cbn; by apply mkdir_post_same.
  - by apply mkdir_post_same.
Qed.

Lemma mkdir_here_post p exist_ok w :
  mkdir_post p w (mkdir_here p exist_ok w).
Proof.
  unfold mkdir_here, try_except.
  destruct (os_mkdir_cases p w) as [(fs' & -> & Hext & Hd) | (e & ->)].
  - by exists fs'.
  - destruct (is_FileNotFoundError e); [by apply mkdir_post_same|].
    destruct (is_OSError e); [apply mkdir_exists_post | by apply mkdir_post_same].
Qed.

Lemma mkdir_parents_post root rtail : forall exist_ok room w,
  mkdir_post (mkPath root (rev rtail)) w (mkdir_parents root rtail exist_ok room w).
Proof.
  induction rtail as [|c rparent IH]; intros exist_ok room w;
    cbn [mkdir_parents]; unfold try_except;
    set (self := mkPath root (rev _));
    (destruct (os_mkdir_cases self w) as [(fs' & -> & Hext & Hd) | (e & ->)];
     [by exists fs'|]);
    (destruct (is_FileNotFoundError e);
     [|destruct (is_OSError e); [apply mkdir_exists_post | by apply mkdir_post_same]]).
  - by apply mkdir_post_same.
  - destruct room as [|room']; [by apply mkdir_post_same|].
    unfold mbind, M_bind.
    destruct (IH true room' w) as (fs1 & Hw1 & Hext1 & _).
    destruct (mkdir_parents root rparent true room' w) as [[[]|e1] w1];
      cbn in Hw1; subst w1.
    + destruct (mkdir_here_post self exist_ok (with_disk fs1 w)) as (fs2 & Hw2 & Hext2 & Hd2).
      exists fs2. rewrite Hw2. split; [done|]. split; [|exact Hd2].
      by apply fs_extends_trans with fs1.
    + exists fs1. split; [done|]. split; [done|]. discriminate.
Qed.

(** [mkdir(parents=True, exist_ok=True)] on an existing directory returns
    without touching anything. *)
Lemma mkdir_parents_existing root rtail room w :
  dir_at (disk w) (mkPath root (rev rtail)) = true ->
  mkdir_parents root rtail true room w = (Return tt, w).
Proof.
  intros Hd.
  assert (mkdir_exists (mkPath root (rev rtail)) true
            (OSError EEXIST (PurePath.str (mkPath root (rev rtail)))) w
          = (Return tt, w)) as Hex.
  { unfold mkdir_exists, mbind, M_bind. cbn [negb].
    by rewrite Path_is_dir_eq, (is_dir_outcome_dir _ _ Hd). }
  destruct rtail as [|c rparent]; cbn [mkdir_parents]; unfold try_except;
    rewrite (os_mkdir_existing _ _ Hd); exact Hex.
Qed.

Lemma Path_mkdir_post p parents exist_ok w :
  mkdir_post p w (Path_mkdir p parents exist_ok w).
Proof.
  unfold Path_mkdir. destruct parents; [|apply mkdir_here_post].
  pose proof (mkdir_parents_post (path_root p) (rev (path_tail p)) exist_ok
                (recursion_room (sys w)) w) as H.
  rewrite rev_involutive in H. by destruct p.
Qed.

Lemma Path_mkdir_existing p w :
  dir_at (disk w) p = true -> Path_mkdir p true true w = (Return tt, w).
Proof.
  intros Hd. unfold Path_mkdir. apply mkdir_parents_existing.
  rewrite rev_involutive. by destruct p.
Qed.

End PathFacts.

(** ** [initialize_memory] *)

Section InitializeFacts.

Implicit Types (s : string) (w : world).

(** The two ways a call ends.  Either way the path global holds the parsed
    argument and the disk has only grown; [_initialized] is set exactly on
    the normal path, where the directory exists. *)
Lemma initialize_memory_cases s w :
  let p := PurePath.parse s in
  exists fs', fs_extends (disk w) fs' /\
    ((initialize_memory s w =
        (Return (initialize_ok p), mkWorld (mkGlobals (Some p) true) fs' (sys w)) /\
      dir_at fs' p = true) \/
     (exists e, initialize_memory s w =
        (Return (initialize_failure e),
         mkWorld (mkGlobals (Some p) (_initialized (mem w))) fs' (sys w)))).
Proof.
  intros p.
  unfold initialize_memory, try_except, kb_path_mkdir, mbind, M_bind.
  cbn [set_kb_path get_kb_path mem _kb_path].
  fold p.
  set (w1 := mkWorld (mkGlobals (Some p) _) (disk w) (sys w)).
  destruct (Path_mkdir_post p true true w1) as (fs' & Hsnd & Hext & Hd).
  exists fs'. split; [exact Hext|].
  destruct (Path_mkdir p true true w1) as [[[]|e] w2]; cbn in Hsnd, Hd; subst w2.
  - left. split; [done | by apply Hd].
  - right. by exists e.
Qed.

(** On a directory that is already there the call succeeds and writes
    nothing to the disk. *)
Lemma initialize_memory_existing s w :
  let p := PurePath.parse s in
  dir_at (disk w) p = true ->
  initialize_memory s w =
    (Return (initialize_ok p), mkWorld (mkGlobals (Some p) true) (disk w) (sys w)).
Proof.
  intros p Hd.
  unfold initialize_memory, try_except, kb_path_mkdir, mbind, M_bind.
  cbn [set_kb_path get_kb_path mem _kb_path]. fold p.
  by rewrite Path_mkdir_existing.
Qed.

Lemma initialize_failure_not_success e : success_flag (initialize_failure e) = Some false.
Proof. reflexivity. Qed.

Lemma initialize_ok_success p : success_flag (initialize_ok p) = Some true.
Proof. reflexivity. Qed.

(** A call that reports success went down the normal path. *)
Lemma initialize_succeeded_inv s w :
  succeeded (fst (initialize_memory s w)) = true ->
  let p := PurePath.parse s in
  exists fs', fs_extends (disk w) fs' /\ dir_at fs' p = true /\
    initialize_memory s w =
      (Return (initialize_ok p), mkWorld (mkGlobals (Some p) true) fs' (sys w)).
Proof.
  intros Hs p.
  destruct (initialize_memory_cases s w) as (fs' & Hext & [[Heq Hd] | [e Heq]]).
  - by exists fs'.
  - rewrite Heq in Hs. discriminate.
Qed.

(** A call that reports failure went through the handler. *)
Lemma initialize_failed_inv s w :
  failed (fst (initialize_memory s w)) = true ->
  let p := PurePath.parse s in
  exists fs' e, fs_extends (disk w) fs' /\
    initialize_memory s w =
      (Return (initialize_failure e),
       mkWorld (mkGlobals (Some p) (_initialized (mem w))) fs' (sys w)).
Proof.
  intros Hf p.
  destruct (initialize_memory_cases s w) as (fs' & Hext & [[Heq Hd] | [e Heq]]).
  - rewrite Heq in Hf. discriminate.
  - by exists fs', e.
Qed.

End InitializeFacts.

(** ** The other four functions *)

Section StubFacts.

Implicit Types (w : world) (o : op).

Lemma search_memory_eq query limit w :
  search_memory query limit w =
    (Return (if _initialized (mem w) then search_ok query else search_not_initialized), w).
Proof.
  unfold search_memory, mbind, M_bind, get_initialized. cbn.
  by destruct (_initialized (mem w)).
Qed.

Lemma store_conversation_eq cid um am md w :
  store_conversation cid um am md w =
    (Return (if _initialized (mem w) then store_ok cid else store_not_initialized), w).
Proof.
  unfold store_conversation, mbind, M_bind, get_initialized. cbn.
  by destruct (_initialized (mem w)).
Qed.

Lemma get_memory_status_eq w :
  get_memory_status w =
    (Return [("initialized", VBool (_initialized (mem w)));
             ("kb_path", match _kb_path (mem w) with
                         | Some p => VStr (PurePath.str p)
                         | None => VNone
                         end);
             ("python_version", VStr (version (sys w)));
             ("available", VBool (_initialized (mem w)))], w).
Proof. reflexivity. Qed.

Example status_before_initialize :
  fst (get_memory_status sample_world) =
    Return [("initialized", VBool false);
            ("kb_path", VNone);
            ("python_version", VStr "3.12.3 (main)");
            ("available", VBool false)].
Proof. reflexivity. Qed.

Lemma test_connection_eq w :
  test_connection w =
    (Return [("success", VBool true);
             ("message", VStr "Python plugin is working!");
             ("python_version", VStr (version (sys w)));
             ("platform", VStr (platform (sys w)));
             ("executable", VStr (executable (sys w)))], w).
Proof. reflexivity. Qed.

(** Only [initialize_memory] writes. *)
Lemma call_reads_only o w :
  (forall s, o <> Initialize s) -> snd (call o w) = w.
Proof.
  intros Hne. destruct o as [s| q l | c u a m | |]; cbn [call].
  - by destruct (Hne s).
  - by rewrite search_memory_eq.
  - by rewrite store_conversation_eq.
  - done.
  - done.
Qed.

(** One call changes the flag only by setting it, and only when it is a
    successful [initialize_memory]. *)
Lemma initialized_step o w :
  _initialized (mem (snd (call o w))) =
  _initialized (mem w) || initialize_succeeded (o, fst (call o w)).
Proof.
  destruct o as [s| q l | c u a m | |]; unfold initialize_succeeded; cbn [call fst snd].
  - destruct (initialize_memory_cases s w) as (fs' & _ & [[-> _] | [e ->]]); cbn.
    + by rewrite orb_true_r.
    + by rewrite orb_false_r.
  - by rewrite search_memory_eq, orb_false_r.
  - by rewrite store_conversation_eq, orb_false_r.
  - by rewrite orb_false_r.
  - by rewrite orb_false_r.
Qed.

Lemma initialized_exec (ops : list op) : forall w,
  _initialized (mem (exec ops w)) =
  _initialized (mem w) || existsb initialize_succeeded (trace ops w).
Proof.
  induction ops as [|o rest IH]; intros w; cbn [exec trace existsb].
  - by rewrite orb_false_r.
  - by rewrite IH, initialized_step, orb_assoc.
Qed.

Lemma initialized_never_reset (ops : list op) w :
  _initialized (mem w) = true -> _initialized (mem (exec ops w)) = true.
Proof. intros Hi. by rewrite initialized_exec, Hi. Qed.

Lemma initialized_false_until_success fs si (ops : list op) :
  existsb initialize_succeeded (trace ops (initial_world fs si)) = false ->
  _initialized (mem (exec ops (initial_world fs si))) = false.
Proof. intros Hn. by rewrite initialized_exec, Hn. Qed.

End StubFacts.

(** ** The service invariant *)

Section Invariant.

Implicit Types (w : world) (o : op).

Lemma kb_dir_exists_eq w :
  kb_dir_exists w =
  match _kb_path (mem w) with
  | Some p => dir_at (disk w) p
  | None => false
  end.
Proof.
  unfold kb_dir_exists. destruct (_kb_path (mem w)) as [p|]; [|done].
  rewrite Path_is_dir_eq. cbn [fst].
  by destruct (is_dir_outcome_cases (disk w) p) as [[-> ->] | [-> [-> | ->]]].
Qed.

Lemma kb_invariant_initial fs si : kb_invariant (initial_world fs si).
Proof. discriminate. Qed.

(** Every call keeps the invariant, a failing [initialize_memory] apart. *)
Lemma kb_invariant_step o w :
  kb_invariant w ->
  (forall s, o = Initialize s -> failed (fst (call o w)) = false) ->
  kb_invariant (snd (call o w)).
Proof.
  intros Hinv Hok. destruct o as [s| q l | c u a m | |];
    try (rewrite call_reads_only; [exact Hinv | discriminate]).
  specialize (Hok s eq_refl). cbn [call] in *.
  destruct (initialize_memory_cases s w) as (fs' & _ & [[Heq Hd] | [e Heq]]);
    rewrite Heq in *; [|discriminate].
  intros _. by rewrite kb_dir_exists_eq.
Qed.

Lemma kb_invariant_exec (ops : list op) : forall w,
  kb_invariant w ->
  existsb initialize_failed (trace ops w) = false ->
  kb_invariant (exec ops w).
Proof.
  induction ops as [|o rest IH]; intros w Hinv; cbn [exec trace existsb]; [done|].
  intros [Ho Hrest]%orb_false_elim. apply IH; [|exact Hrest].
  apply kb_invariant_step; [exact Hinv|].
  intros s ->. exact Ho.
Qed.

(** So the invariant holds in every state reached without a failed
    [initialize_memory]. *)
Lemma kb_invariant_reachable fs si (ops : list op) :
  existsb initialize_failed (trace ops (initial_world fs si)) = false ->
  kb_invariant (exec ops (initial_world fs si)).
Proof. apply kb_invariant_exec, kb_invariant_initial. Qed.

(** The part of the invariant that every reachable state has: a set flag
    comes with a set path. *)
Lemma path_set_step o w :
  (_initialized (mem w) = true -> is_Some (_kb_path (mem w))) ->
  _initialized (mem (snd (call o w))) = true ->
  is_Some (_kb_path (mem (snd (call o w)))).
Proof.
  intros Hinv. destruct o as [s| q l | c u a m | |];
    try (rewrite call_reads_only; [exact Hinv | discriminate]).
  cbn [call].
  destruct (initialize_memory_cases s w) as (fs' & _ & [[-> _] | [e ->]]); by eexists.
Qed.

Lemma path_set_exec (ops : list op) : forall w,
  (_initialized (mem w) = true -> is_Some (_kb_path (mem w))) ->
  _initialized (mem (exec ops w)) = true ->
  is_Some (_kb_path (mem (exec ops w))).
Proof.
  induction ops as [|o rest IH]; intros w Hinv; cbn [exec]; [exact Hinv|].
  apply IH. by apply path_set_step.
Qed.

Lemma reachable_path_set w :
  reachable w -> _initialized (mem w) = true -> is_Some (_kb_path (mem w)).
Proof.
  intros (fs & si & ops & ->). apply path_set_exec. discriminate.
Qed.

End Invariant.

(** ** The claims *)

(** C1.  The invariant "[initialized] implies that the knowledge-base path
    is set and names an existing directory" does not survive every sequence
    of calls.  On the sample disk, [initialize_memory("kb")] succeeds and
    creates [/home/kb]; [initialize_memory("/etc/passwd/x")] then fails
    with [NotADirectoryError], because [/etc/passwd] is a regular file.
    Line 38 has already stored the new path when line 41 raises, and the
    flag set by the first call stays set: the reachable state that results
    has [_initialized = True] and a path that names no directory. *)
Theorem kb_invariant_broken_by_failed_initialize :
  let ops := [Initialize "kb"; Initialize "/etc/passwd/x"] in
  let w := exec ops sample_world in
  reachable w /\
  map (fun c => succeeded (snd c)) (trace ops sample_world) = [true; false] /\
  map (fun c => failed (snd c)) (trace ops sample_world) = [false; true] /\
  _initialized (mem w) = true /\
  _kb_path (mem w) = Some (mkPath "/" ["etc"; "passwd"; "x"]) /\
  kb_dir_exists w = false /\
  ~ kb_invariant w.
Proof.
  intros ops w.
  split; [by exists sample_fs, sample_sys, ops|].
  split; [by vm_compute|]. split; [by vm_compute|].
  assert (_initialized (mem w) = true) as Hi by (by vm_compute).
  assert (kb_dir_exists w = false) as Hd by (by vm_compute).
  split; [exact Hi|]. split; [by vm_compute|]. split; [exact Hd|].
  intros Hinv. specialize (Hinv Hi). congruence.
Qed.

Lemma parse_tail_filter (s : string) :
  path_tail (PurePath.parse s) = List.filter PurePath.keep_part (Str.split "/" s).
Proof.
  assert (forall r, List.filter PurePath.keep_part (Str.split "/" (String "/" r))
                    = List.filter PurePath.keep_part (Str.split "/" r)) as Hdrop
    by reflexivity.
  destruct s as [|c1 r1]; [reflexivity|].
  destruct c1 as [[] [] [] [] [] [] [] []]; try reflexivity.
  destruct r1 as [|c2 r2]; [reflexivity|].
  destruct c2 as [[] [] [] [] [] [] [] []]; try reflexivity.
  destruct r2 as [|c3 r3]; [reflexivity|].
  destruct c3 as [[] [] [] [] [] [] [] []]; reflexivity.
Qed.

Lemma parse_root_relative (s : string) :
  (forall r, s <> String "/" r) -> path_root (PurePath.parse s) = "".
Proof.
  intros Hrel. destruct s as [|c r]; [reflexivity|].
  destruct c as [[] [] [] [] [] [] [] []]; try reflexivity.
  by destruct (Hrel r).
Qed.

(** C2, as corrected.  A successful [initialize_memory] does not resolve
    its argument.  It stores the path object [Path(kb_path_str)] in
    [_kb_path], sets [_initialized], and returns the success map whose
    ["kb_path"] is that path as a string and whose ["message"] is the
    confirmation text naming it.  That path is the argument normalised as
    text: its components are those of the argument split at [/], without
    the empty ones and the [.] ones and with every [..] kept, and a
    relative argument gives a relative path. *)
Theorem initialize_success_stores_and_returns_path (s : string) (w : world) :
  succeeded (fst (initialize_memory s w)) = true ->
  _kb_path (mem (snd (initialize_memory s w))) = Some (PurePath.parse s) /\
  _initialized (mem (snd (initialize_memory s w))) = true /\
  fst (initialize_memory s w) =
    Return [("success", VBool true);
            ("message", VStr ("Memory service initialized at " +:+
                              PurePath.str (PurePath.parse s)));
            ("kb_path", VStr (PurePath.str (PurePath.parse s)))] /\
  path_tail (PurePath.parse s) = List.filter PurePath.keep_part (Str.split "/" s) /\
  ((forall r, s <> String "/" r) -> path_root (PurePath.parse s) = "").
Proof.
  intros Hs.
  destruct (initialize_succeeded_inv s w Hs) as (fs' & _ & _ & ->).
  repeat split; [apply parse_tail_filter | apply parse_root_relative].
Qed.

Lemma initialize_success_stores_and_returns_path_witness :
  succeeded (fst (initialize_memory "./kb//../data/" sample_world)) = true /\
  _kb_path (mem (snd (initialize_memory "./kb//../data/" sample_world)))
    = Some (mkPath "" ["kb"; ".."; "data"]) /\
  dict_get "kb_path"
    match fst (initialize_memory "./kb//../data/" sample_world) with
    | Return d => d
    | Raise _ => []
    end = Some (VStr "kb/../data").
Proof.
  assert (succeeded (fst (initialize_memory "./kb//../data/" sample_world)) = true)
    as Hs by (vm_compute; reflexivity).
  split; [exact Hs|].
  destruct (initialize_success_stores_and_returns_path _ _ Hs) as (Hp & _ & Hr & _).
  split; [exact Hp|]. rewrite Hr. reflexivity.
Defined.

(** C2, the claim as stated fails.  With the working directory [/home],
    [initialize_memory("kb/../data")] succeeds; the resolved path is
    [/home/data], but the path stored and returned is the relative
    [kb/../data]. *)
Lemma initialize_does_not_resolve_path :
  succeeded (fst (initialize_memory "kb/../data" sample_world)) = true /\
  resolved (disk sample_world) (PurePath.parse "kb/../data")
    = mkPath "/" ["home"; "data"] /\
  _kb_path (mem (snd (initialize_memory "kb/../data" sample_world)))
    = Some (mkPath "" ["kb"; ".."; "data"]) /\
  _kb_path (mem (snd (initialize_memory "kb/../data" sample_world)))
    <> Some (resolved (disk sample_world) (PurePath.parse "kb/../data")) /\
  fst (initialize_memory "kb/../data" sample_world) =
    Return [("success", VBool true);
            ("message", VStr "Memory service initialized at kb/../data");
            ("kb_path", VStr "kb/../data")] /\
  PurePath.str (resolved (disk sample_world) (PurePath.parse "kb/../data"))
    = "/home/data".
Proof.
  assert (_kb_path (mem (snd (initialize_memory "kb/../data" sample_world)))
          = Some (mkPath "" ["kb"; ".."; "data"])) as Hp by (vm_compute; reflexivity).
  split; [vm_compute; reflexivity|]. split; [reflexivity|]. split; [exact Hp|].
  split; [rewrite Hp; discriminate|]. split; [vm_compute; reflexivity | reflexivity].
Qed.

(** C3.  While [_initialized] is false, [search_memory] and
    [store_conversation] return, for every argument, the failure map with
    [success: False] and the message [Memory service not initialized]
    (with an empty ["results"] list for the search); they do not raise and
    they leave the world as it was. *)
Theorem not_initialized_calls_fail (w : world)
    (query : string) (limit : Z)
    (conversation_id user_message assistant_message : string)
    (metadata : option (gmap string string)) :
  _initialized (mem w) = false ->
  search_memory query limit w =
    (Return [("success", VBool false);
             ("message", VStr "Memory service not initialized");
             ("results", VList [])], w) /\
  store_conversation conversation_id user_message assistant_message metadata w =
    (Return [("success", VBool false);
             ("message", VStr "Memory service not initialized")], w).
Proof.
  intros Hi. by rewrite search_memory_eq, store_conversation_eq, Hi.
Qed.

Lemma not_initialized_calls_fail_witness :
  _initialized (mem sample_world) = false /\
  search_memory "hello" 5 sample_world =
    (Return [("success", VBool false);
             ("message", VStr "Memory service not initialized");
             ("results", VList [])], sample_world) /\
  store_conversation "c1" "hi" "hello" None sample_world =
    (Return [("success", VBool false);
             ("message", VStr "Memory service not initialized")], sample_world).
Proof.
  split; [reflexivity|].
  apply (not_initialized_calls_fail sample_world "hello" 5 "c1" "hi" "hello" None).
  reflexivity.
Defined.


(** The [except] arm of [get_memory_status] returns [status_failure]. *)
Lemma get_memory_status_handler :
  get_memory_status =
    try_except
      (init ← get_initialized;
       kb ← get_kb_path;
       si ← get_sys;
       avail ← get_initialized;
       mret [("initialized", VBool init);
             ("kb_path", match kb with Some p => VStr (PurePath.str p) | None => VNone end);
             ("python_version", VStr (version si));
             ("available", VBool avail)])
      (fun e => mret (status_failure e)).
Proof. reflexivity. Qed.



(** C5.  [initialize_memory] is idempotent: after a call that succeeded,
    the same call again returns the same success map and leaves the world,
    globals and disk alike, exactly as the first call left it. *)
Theorem initialize_idempotent (s : string) (w : world) :
  succeeded (fst (initialize_memory s w)) = true ->
  initialize_memory s (snd (initialize_memory s w)) = initialize_memory s w /\
  succeeded (fst (initialize_memory s (snd (initialize_memory s w)))) = true.
Proof.
  intros Hs.
  destruct (initialize_succeeded_inv s w Hs) as (fs' & _ & Hd & Heq).
  rewrite Heq in *. cbn [snd].
  by rewrite initialize_memory_existing.
Qed.

Lemma initialize_idempotent_witness :
  succeeded (fst (initialize_memory "data/kb" sample_world)) = true /\
  initialize_memory "data/kb" (snd (initialize_memory "data/kb" sample_world))
    = initialize_memory "data/kb" sample_world.
Proof.
  assert (succeeded (fst (initialize_memory "data/kb" sample_world)) = true)
    as Hs by (vm_compute; reflexivity).
  split; [exact Hs|].
  exact (proj1 (initialize_idempotent "data/kb" sample_world Hs)).
Defined.

(** C6.  [_initialized] is false when the module is loaded, and after any
    sequence of calls it is true exactly when it was true before or some
    [initialize_memory] call of the sequence succeeded.  So no call, a
    failing [initialize_memory] included, ever resets it, and it stays
    false until the first successful [initialize_memory]. *)
Theorem initialized_flag_history (ops : list op) (w : world) :
  _initialized initial_globals = false /\
  _initialized (mem (exec ops w)) =
    _initialized (mem w) || existsb initialize_succeeded (trace ops w).
Proof. split; [reflexivity | apply initialized_exec]. Qed.

(** C7.  In any state that follows a successful [initialize_memory],
    [search_memory] returns, for every query and every limit, the map with
    [success: True], the query, an empty ["results"] list and the message
    [Search functionality coming soon]; the world is unchanged and the
    result does not depend on the limit. *)
Theorem search_after_initialize (ops : list op) (w0 : world)
    (query : string) (limit : Z) :
  existsb initialize_succeeded (trace ops w0) = true ->
  search_memory query limit (exec ops w0) =
    (Return [("success", VBool true);
             ("query", VStr query);
             ("results", VList []);
             ("message", VStr "Search functionality coming soon")],
     exec ops w0) /\
  forall limit', search_memory query limit' (exec ops w0) =
                 search_memory query limit (exec ops w0).
Proof.
  intros Hs.
  assert (_initialized (mem (exec ops w0)) = true) as Hi.
  { by rewrite initialized_exec, Hs, orb_true_r. }
  split; [|intros limit']; by rewrite !search_memory_eq, ?Hi.
Qed.

Lemma search_after_initialize_witness :
  existsb initialize_succeeded (trace [Initialize "kb"] sample_world) = true /\
  fst (search_memory "hello" 5 (exec [Initialize "kb"] sample_world)) =
    Return [("success", VBool true);
            ("query", VStr "hello");
            ("results", VList []);
            ("message", VStr "Search functionality coming soon")].
Proof.
  assert (existsb initialize_succeeded (trace [Initialize "kb"] sample_world) = true)
    as Hs by (vm_compute; reflexivity).
  split; [exact Hs|].
  destruct (search_after_initialize [Initialize "kb"] sample_world "hello" 5 Hs)
    as [-> _].
  reflexivity.
Defined.

(** C8.  In any state that follows a successful [initialize_memory],
    [store_conversation] returns [success: True] with the conversation id
    it was given, whatever the messages and the metadata, and changes
    neither the globals nor the disk. *)
Theorem store_after_initialize (ops : list op) (w0 : world)
    (conversation_id user_message assistant_message : string)
    (metadata : option (gmap string string)) :
  existsb initialize_succeeded (trace ops w0) = true ->
  store_conversation conversation_id user_message assistant_message metadata
      (exec ops w0) =
    (Return [("success", VBool true);
             ("conversation_id", VStr conversation_id);
             ("message", VStr "Conversation stored successfully")],
     exec ops w0).
Proof.
  intros Hs.
  assert (_initialized (mem (exec ops w0)) = true) as Hi.
  { by rewrite initialized_exec, Hs, orb_true_r. }
  by rewrite store_conversation_eq, Hi.
Qed.

Lemma store_after_initialize_witness :
  existsb initialize_succeeded (trace [Initialize "kb"] sample_world) = true /\
  store_conversation "c1" "hi" "hello" None (exec [Initialize "kb"] sample_world) =
    (Return [("success", VBool true);
             ("conversation_id", VStr "c1");
             ("message", VStr "Conversation stored successfully")],
     exec [Initialize "kb"] sample_world).
Proof.
  assert (existsb initialize_succeeded (trace [Initialize "kb"] sample_world) = true)
    as Hs by (vm_compute; reflexivity).
  split; [exact Hs|].
  exact (store_after_initialize [Initialize "kb"] sample_world "c1" "hi" "hello" None Hs).
Defined.

(** C9.  A failing [initialize_memory] is not atomic.  The new path is
    stored before the directory is created, so when the call returns its
    failure map the exception came from [mkdir] running with [_kb_path]
    already overwritten; afterwards [_kb_path] is the new path, the flag is
    what it was, and [get_memory_status] reports the new path. *)
Theorem failed_initialize_overwrites_path (s : string) (w : world) :
  failed (fst (initialize_memory s w)) = true ->
  (exists e,
     fst (Path_mkdir (PurePath.parse s) true true
            (with_globals (mkGlobals (Some (PurePath.parse s)) (_initialized (mem w))) w))
       = Raise e /\
     fst (initialize_memory s w) = Return (initialize_failure e)) /\
  _kb_path (mem (snd (initialize_memory s w))) = Some (PurePath.parse s) /\
  _initialized (mem (snd (initialize_memory s w))) = _initialized (mem w) /\
  exists d,
    fst (get_memory_status (snd (initialize_memory s w))) = Return d /\
    dict_get "kb_path" d = Some (VStr (PurePath.str (PurePath.parse s))).
Proof.
  intros Hf. split.
  - revert Hf.
    unfold initialize_memory, try_except, kb_path_mkdir, mbind, M_bind, with_globals.
    cbn [set_kb_path get_kb_path mem _kb_path].
    destruct (Path_mkdir _ true true _) as [[[]|e] w2]; cbn; [discriminate|].
    intros _. by exists e.
  - destruct (initialize_failed_inv s w Hf) as (fs' & e & _ & ->). cbn [snd mem].
    split; [done|]. split; [done|].
    rewrite get_memory_status_eq. by eexists.
Qed.

Lemma failed_initialize_overwrites_path_witness :
  let w := exec [Initialize "kb"] sample_world in
  failed (fst (initialize_memory "/etc/passwd/x" w)) = true /\
  _kb_path (mem w) = Some (mkPath "" ["kb"]) /\
  _kb_path (mem (snd (initialize_memory "/etc/passwd/x" w)))
    = Some (mkPath "/" ["etc"; "passwd"; "x"]).
Proof.
  intros w.
  assert (failed (fst (initialize_memory "/etc/passwd/x" w)) = true)
    as Hf by (vm_compute; reflexivity).
  split; [exact Hf|]. split; [vm_compute; reflexivity|].
  exact (proj1 (proj2 (failed_initialize_overwrites_path "/etc/passwd/x" w Hf))).
Defined.

(** C10.  [initialize_memory] on the empty string succeeds wherever the
    working directory exists: [Path] of the empty string is the current
    directory, [mkdir] finds it there, the flag is set, the disk is left as
    it was and the success map names the path [.]. *)
Theorem initialize_empty_string (w : world) :
  cwd_is_dir (disk w) = true ->
  initialize_memory "" w =
    (Return [("success", VBool true);
             ("message", VStr "Memory service initialized at .");
             ("kb_path", VStr ".")],
     mkWorld (mkGlobals (Some (mkPath "" [])) true) (disk w) (sys w)).
Proof.
  intros Hcwd. apply (initialize_memory_existing "" w).
  unfold dir_at, cwd_is_dir in *. cbn.
  by destruct (Fs.lookup (disk w) (cwd (disk w))) as [[|b]|].
Qed.

Lemma initialize_empty_string_witness :
  cwd_is_dir (disk sample_world) = true /\
  succeeded (fst (initialize_memory "" sample_world)) = true /\
  _initialized (mem (snd (initialize_memory "" sample_world))) = true.
Proof.
  assert (cwd_is_dir (disk sample_world) = true) as Hc by (vm_compute; reflexivity).
  split; [exact Hc|].
  rewrite (initialize_empty_string sample_world Hc). split; reflexivity.
Defined.

(** * Further properties *)

(** ** What the calls do to the disk *)

Section DiskFacts.

Implicit Types (fs : filesystem) (w : world) (p : Path).

Lemma fs_grows_refl fs : fs_grows fs fs.
Proof. split; [apply fs_extends_refl | by left]. Qed.

Lemma fs_grows_trans fs1 fs2 fs3 :
  fs_grows fs1 fs2 -> fs_grows fs2 fs3 -> fs_grows fs1 fs3.
Proof.
  intros [He1 Hn1] [He2 Hn2]. split; [by apply fs_extends_trans with fs2|].
  intros q n Hq. destruct (Hn2 q n Hq) as [Hq2 | ->]; [by apply Hn1 | by right].
Qed.

Lemma mkdir_at_grows fs fs' comps : forall cur,
  Fs.mkdir_at fs cur comps = inr fs' -> fs_grows fs fs'.
Proof.
  intros cur0 H0. split; [by apply mkdir_at_extends in H0|].
  revert cur0 H0.
  induction comps as [|c rest IH]; intros cur; cbn.
  - destruct (Fs.lookup fs cur); discriminate.
  - destruct (Fs.lookup fs cur) as [[|b]|]; try discriminate.
    destruct (Fs.too_long c); [discriminate|].
    destruct rest as [|c' rest']; [|apply IH].
    destruct (String.eqb c ".."); [discriminate|].
    destruct (Fs.lookup fs (cur ++ [c])); [discriminate|].
    destruct b; [|discriminate].
    intros [= <-] q n. destruct q as [|x q]; [by left|]. cbn.
    destruct (decide (cur ++ [c] = x :: q)) as [<- | Hne].
    + rewrite lookup_insert_eq. intros [= <-]. by right.
    + rewrite lookup_insert_ne by done. by left.
Qed.

Lemma disk_grows_same {A} (m : M A) :
  (forall w, snd (m w) = w) -> disk_grows m.
Proof. intros H w. rewrite H. split; [apply fs_grows_refl | done]. Qed.

Lemma disk_grows_globals {A} (m : M A) :
  (forall w, disk (snd (m w)) = disk w /\ sys (snd (m w)) = sys w) -> disk_grows m.
Proof. intros H w. destruct (H w) as [-> ->]. split; [apply fs_grows_refl | done]. Qed.

Lemma disk_grows_bind {A B} (m : M A) (k : A -> M B) :
  disk_grows m -> (forall a, disk_grows (k a)) -> disk_grows (m ≫= k).
Proof.
  intros Hm Hk w. unfold mbind, M_bind.
  destruct (Hm w) as [Hg Hs]. destruct (m w) as [[a|e] w1]; cbn in *; [|done].
  destruct (Hk a w1) as [Hg' Hs']. split; [by apply fs_grows_trans with (disk w1) | congruence].
Qed.

Lemma disk_grows_try {A} (m : M A) (h : exn -> M A) :
  disk_grows m -> (forall e, disk_grows (h e)) -> disk_grows (try_except m h).
Proof.
  intros Hm Hh w. unfold try_except.
  destruct (Hm w) as [Hg Hs]. destruct (m w) as [[a|e] w1]; cbn in *; [done|].
  destruct (Hh e w1) as [Hg' Hs']. split; [by apply fs_grows_trans with (disk w1) | congruence].
Qed.

Lemma disk_grows_raise {A} (e : exn) : disk_grows (@raise A e).
Proof. by apply disk_grows_same. Qed.

Lemma disk_grows_ret {A} (a : A) : disk_grows (mret a : M A).
Proof. by apply disk_grows_same. Qed.

Lemma disk_grows_os_mkdir p : disk_grows (os_mkdir p).
Proof.
  intros w. unfold os_mkdir.
  destruct (Str.contains NUL (PurePath.str p)); [split; [apply fs_grows_refl | done]|].
  destruct (path_fits p); cbn [negb]; [|split; [apply fs_grows_refl | done]].
  destruct (Fs.mkdir_at _ _ _) as [e|fs'] eqn:Hmk; cbn.
  - split; [apply fs_grows_refl | done].
  - split; [by apply mkdir_at_grows in Hmk | done].
Qed.

Lemma disk_grows_is_dir p : disk_grows (Path_is_dir p).
Proof. apply disk_grows_same. intros w. by rewrite Path_is_dir_eq. Qed.

Lemma disk_grows_mkdir_exists p exist_ok e : disk_grows (mkdir_exists p exist_ok e).
Proof.
  unfold mkdir_exists. destruct exist_ok; cbn [negb]; [|apply disk_grows_raise].
  apply disk_grows_bind; [apply disk_grows_is_dir|].
  intros []; [apply disk_grows_ret | apply disk_grows_raise].
Qed.

Lemma disk_grows_mkdir_handler p exist_ok (e : exn) (k : M unit) :
  disk_grows k ->
  disk_grows (if is_FileNotFoundError e then k
              else if is_OSError e then mkdir_exists p exist_ok e
              else raise e).
Proof.
  intros Hk. destruct (is_FileNotFoundError e); [exact Hk|].
  destruct (is_OSError e); [apply disk_grows_mkdir_exists | apply disk_grows_raise].
Qed.

Lemma disk_grows_mkdir_here p exist_ok : disk_grows (mkdir_here p exist_ok).
Proof.
  apply disk_grows_try; [apply disk_grows_os_mkdir|].
  intros e. apply disk_grows_mkdir_handler, disk_grows_raise.
Qed.

Lemma disk_grows_mkdir_parents root rtail : forall exist_ok room,
  disk_grows (mkdir_parents root rtail exist_ok room).
Proof.
  induction rtail as [|c rparent IH]; intros exist_ok room; cbn [mkdir_parents];
    (apply disk_grows_try; [apply disk_grows_os_mkdir|]);
    intros e; apply disk_grows_mkdir_handler.
  - apply disk_grows_raise.
  - destruct room as [|room']; [apply disk_grows_raise|].
    apply disk_grows_bind; [apply IH|]. intros _. apply disk_grows_mkdir_here.
Qed.

Lemma disk_grows_Path_mkdir p parents exist_ok :
  disk_grows (Path_mkdir p parents exist_ok).
Proof.
  intros w. unfold Path_mkdir. destruct parents;
    [apply disk_grows_mkdir_parents | apply disk_grows_mkdir_here].
Qed.

Lemma disk_grows_initialize_memory s : disk_grows (initialize_memory s).
Proof.
  apply disk_grows_try; [|intros e; apply disk_grows_ret].
  apply disk_grows_bind; [by apply disk_grows_globals|]. intros _.
  apply disk_grows_bind.
  { apply disk_grows_bind; [by apply disk_grows_same|].
    intros [p|]; [apply disk_grows_Path_mkdir | apply disk_grows_raise]. }
  intros _. apply disk_grows_bind; [by apply disk_grows_globals|]. intros _.
  apply disk_grows_bind; [by apply disk_grows_same|]. intros kb. apply disk_grows_ret.
Qed.

Lemma disk_grows_call (o : op) : disk_grows (call o).
Proof.
  destruct o as [s| q l | c u a m | |]; [apply disk_grows_initialize_memory|..];
    apply disk_grows_same; intros w; by apply call_reads_only.
Qed.

End DiskFacts.

(** ** Sequences of calls *)

Section SequenceFacts.

Implicit Types (w : world) (o : op) (ops : list op).

Lemma disk_grows_exec ops : forall w,
  fs_grows (disk w) (disk (exec ops w)) /\ sys (exec ops w) = sys w.
Proof.
  induction ops as [|o rest IH]; intros w; cbn [exec].
  - split; [apply fs_grows_refl | done].
  - destruct (disk_grows_call o w) as [Hg Hs], (IH (snd (call o w))) as [Hg' Hs'].
    split; [by apply fs_grows_trans with (disk (snd (call o w))) | congruence].
Qed.

Lemma kb_path_step o w :
  _kb_path (mem (snd (call o w))) =
  match o with
  | Initialize s => Some (PurePath.parse s)
  | _ => _kb_path (mem w)
  end.
Proof.
  destruct o as [s| q l | c u a m | |];
    try (rewrite call_reads_only; [done | discriminate]).
  cbn [call].
  by destruct (initialize_memory_cases s w) as (fs' & _ & [[-> _] | [e ->]]).
Qed.

Lemma kb_path_exec ops : forall w,
  _kb_path (mem (exec ops w)) =
  match last_initialize ops with
  | Some s => Some (PurePath.parse s)
  | None => _kb_path (mem w)
  end.
Proof.
  induction ops as [|o rest IH]; intros w; cbn [exec last_initialize]; [done|].
  rewrite IH. destruct (last_initialize rest); [done|].
  rewrite kb_path_step. by destruct o.
Qed.

Lemma exec_without_initialize ops : forall w,
  forallb (fun o => negb (is_initialize o)) ops = true -> exec ops w = w.
Proof.
  induction ops as [|o rest IH]; intros w; cbn [exec forallb]; [done|].
  intros [Ho Hrest]%andb_true_iff.
  rewrite call_reads_only; [by apply IH|].
  intros s ->. discriminate.
Qed.

End SequenceFacts.

(** ** Failing calls of [initialize_memory] *)

Section FailureFacts.

Implicit Types (s : string) (w : world) (p : Path) (e : exn).

(** When [mkdir] raises, the handler turns the exception into the failure
    map in the world [mkdir] left. *)
Lemma initialize_memory_raised s w e w2 :
  Path_mkdir (PurePath.parse s) true true
    (with_globals (mkGlobals (Some (PurePath.parse s)) (_initialized (mem w))) w)
    = (Raise e, w2) ->
  initialize_memory s w = (Return (initialize_failure e), w2).
Proof.
  intros Hmk.
  unfold initialize_memory, try_except, kb_path_mkdir, mbind, M_bind.
  cbn [set_kb_path get_kb_path mem _kb_path].
  unfold with_globals in Hmk. by rewrite Hmk.
Qed.

(** When [os.mkdir] raises something other than [FileNotFoundError] and
    the path is not a directory, [mkdir(parents=True, exist_ok=True)]
    raises and writes nothing: the same exception when it is no [OSError],
    else that one or the one [is_dir] raised. *)
Lemma mkdir_parents_raised root rtail room w e :
  os_mkdir (mkPath root (rev rtail)) w = (Raise e, w) ->
  is_FileNotFoundError e = false ->
  dir_at (disk w) (mkPath root (rev rtail)) = false ->
  exists e', mkdir_parents root rtail true room w = (Raise e', w) /\
             (is_OSError e = false -> e' = e).
Proof.
  intros Hos Hfnf Hd.
  assert (exists e', (if is_OSError e
                      then mkdir_exists (mkPath root (rev rtail)) true e
                      else raise e) w = (Raise e', w) /\
                     (is_OSError e = false -> e' = e)) as (e' & Hex & He).
  { destruct (is_OSError e); [|by exists e].
    unfold mkdir_exists, mbind, M_bind. cbn [negb]. rewrite Path_is_dir_eq.
    destruct (is_dir_outcome_cases (disk w) (mkPath root (rev rtail)))
      as [[Hd' _] | [_ [-> | ->]]]; [congruence | |]; by eexists. }
  exists e'. split; [|exact He].
  destruct rtail as [|c rparent]; cbn [mkdir_parents]; unfold try_except;
    rewrite Hos, Hfnf; exact Hex.
Qed.

Lemma Path_mkdir_raised p w e :
  os_mkdir p w = (Raise e, w) ->
  is_FileNotFoundError e = false ->
  dir_at (disk w) p = false ->
  exists e', Path_mkdir p true true w = (Raise e', w) /\
             (is_OSError e = false -> e' = e).
Proof.
  intros Hos Hfnf Hd. unfold Path_mkdir.
  apply mkdir_parents_raised; rewrite ?rev_involutive; by destruct p.
Qed.

End FailureFacts.

(** ** Splitting, joining and parsing *)

Section ParseFacts.

Implicit Types (s w x rest : string) (c d : ascii) (l : list string) (p : Path).

Lemma append_empty s : "" +:+ s = s.
Proof. reflexivity. Qed.

Lemma append_String c w s : String c w +:+ s = String c (w +:+ s).
Proof. reflexivity. Qed.

Lemma split_no_sep c w : Str.contains c w = false -> Str.split c w = [w].
Proof.
  induction w as [|d w IH]; cbn [Str.split Str.contains String.append]; [done|].
  intros [Hd Hw]%orb_false_elim.
  rewrite Ascii.eqb_sym, Hd. by rewrite (IH Hw).
Qed.

Lemma split_app c w rest :
  Str.contains c w = false ->
  Str.split c (w +:+ String c rest) = w :: Str.split c rest.
Proof.
  induction w as [|d w IH]; rewrite ?append_empty, ?append_String;
    cbn [Str.split Str.contains].
  - intros _. by rewrite Ascii.eqb_refl.
  - intros [Hd Hw]%orb_false_elim.
    rewrite Ascii.eqb_sym, Hd. by rewrite (IH Hw).
Qed.

Lemma split_parts_no_sep c s :
  Forall (fun x => Str.contains c x = false) (Str.split c s).
Proof.
  induction s as [|d s IH]; cbn [Str.split]; [by repeat constructor|].
  destruct (Ascii.eqb d c) eqn:Hd; [by constructor|].
  destruct (Str.split c s) as [|w ws].
  - repeat constructor. cbn [Str.contains]. by rewrite Ascii.eqb_sym, Hd.
  - inversion IH as [|? ? Hw Hws]; subst. constructor; [|done].
    cbn [Str.contains]. by rewrite Ascii.eqb_sym, Hd.
Qed.

Lemma split_join l :
  l <> [] ->
  Forall (fun x => Str.contains "/" x = false) l ->
  Str.split "/" (Str.join "/" l) = l.
Proof.
  induction l as [|w l IH]; [done|]. intros _ Hall.
  inversion Hall as [|? ? Hw Hl]; subst.
  destruct l as [|w2 ws]; [by apply split_no_sep|].
  change (Str.join "/" (w :: w2 :: ws))
    with (w +:+ String "/" (Str.join "/" (w2 :: ws))).
  rewrite split_app by done. by rewrite IH.
Qed.

Lemma contains_app c w rest :
  Str.contains c (w +:+ rest) = Str.contains c w || Str.contains c rest.
Proof.
  induction w as [|d w IH]; rewrite ?append_empty, ?append_String;
    cbn [Str.contains]; [done|]. by rewrite IH, orb_assoc.
Qed.

Lemma contains_join c l :
  Ascii.eqb c "/" = false ->
  Str.contains c (Str.join "/" l) = existsb (Str.contains c) l.
Proof.
  intros Hc. induction l as [|w l IH]; [done|].
  destruct l as [|w2 ws]; [cbn; by rewrite orb_false_r|].
  change (Str.join "/" (w :: w2 :: ws))
    with (w +:+ String "/" (Str.join "/" (w2 :: ws))).
  rewrite contains_app. cbn [Str.contains existsb] in *. by rewrite Hc, IH.
Qed.

Lemma contains_split c sep s :
  Ascii.eqb c sep = false ->
  existsb (Str.contains c) (Str.split sep s) = Str.contains c s.
Proof.
  intros Hc. induction s as [|d s IH]; cbn; [done|].
  destruct (Ascii.eqb d sep) eqn:Hd.
  - apply Ascii.eqb_eq in Hd as ->. cbn. by rewrite Hc, IH.
  - destruct (Str.split sep s) as [|w ws]; cbn in *.
    + by rewrite <- IH, orb_false_r.
    + by rewrite <- IH, orb_assoc.
Qed.

(** The root that [splitroot] takes off is made of separators only. *)
Lemma splitroot_spec s :
  (fst (PurePath.splitroot s) = "" \/ fst (PurePath.splitroot s) = "/" \/
   fst (PurePath.splitroot s) = "//") /\
  forall c, Ascii.eqb c "/" = false ->
            Str.contains c (snd (PurePath.splitroot s)) = Str.contains c s.
Proof.
  assert (forall c r, Ascii.eqb c "/" = false ->
            Str.contains c (String "/" r) = Str.contains c r) as Hdrop.
  { intros c r Hc. cbn [Str.contains]. by rewrite Hc. }
  destruct s as [|c1 r1]; [by split; [left|]|].
  destruct c1 as [[] [] [] [] [] [] [] []];
    try (split; [by left | done]).
  destruct r1 as [|c2 r2].
  { split; [by right; left | intros c Hc; by rewrite Hdrop]. }
  destruct c2 as [[] [] [] [] [] [] [] []];
    try (split; [by right; left | intros c Hc; by rewrite Hdrop]).
  destruct r2 as [|c3 r3].
  { split; [by right; right | intros c Hc; by rewrite !Hdrop]. }
  destruct c3 as [[] [] [] [] [] [] [] []];
    try (split; [by right; right | intros c Hc; by rewrite !Hdrop]).
  split; [by right; left | intros c Hc; by rewrite Hdrop].
Qed.

Lemma splitroot_relative c rest :
  Ascii.eqb "/" c = false ->
  PurePath.splitroot (String c rest) = ("", String c rest).
Proof. by destruct c as [[] [] [] [] [] [] [] []]. Qed.

Lemma splitroot_one_slash c rest :
  Ascii.eqb "/" c = false ->
  PurePath.splitroot (String "/" (String c rest)) = ("/", String c rest).
Proof. by destruct c as [[] [] [] [] [] [] [] []]. Qed.

Lemma splitroot_two_slashes c rest :
  Ascii.eqb "/" c = false ->
  PurePath.splitroot (String "/" (String "/" (String c rest))) = ("//", String c rest).
Proof. by destruct c as [[] [] [] [] [] [] [] []]. Qed.

Lemma keep_part_false x : PurePath.keep_part x = false -> x = "" \/ x = ".".
Proof.
  unfold PurePath.keep_part.
  destruct (String.eqb_spec x ""), (String.eqb_spec x "."); subst; auto; discriminate.
Qed.

Lemma filter_components l :
  Forall (fun x => Str.contains "/" x = false) l ->
  Forall path_component (List.filter PurePath.keep_part l).
Proof.
  induction 1 as [|x l Hx Hl IH]; cbn; [constructor|].
  destruct (PurePath.keep_part x) eqn:Hk; [|done]. by constructor.
Qed.

Lemma filter_components_id l :
  Forall path_component l -> List.filter PurePath.keep_part l = l.
Proof.
  induction 1 as [|x l [Hk _] Hl IH]; cbn; [done|]. by rewrite Hk, IH.
Qed.

Lemma parse_wf s : wf_path (PurePath.parse s).
Proof.
  destruct s as [|c r]; [split; [by left | constructor]|].
  unfold PurePath.parse.
  destruct (splitroot_spec (String c r)) as [Hroot _].
  destruct (PurePath.splitroot (String c r)) as [root rel]. split; [exact Hroot|].
  apply filter_components, split_parts_no_sep.
Qed.

(** The first character of a printed component list. *)
Lemma join_head x l :
  path_component x ->
  exists c r, Ascii.eqb "/" c = false /\ Str.join "/" (x :: l) = String c r.
Proof.
  intros [Hk Hs]. destruct x as [|c x]; [done|].
  cbn in Hs. apply orb_false_elim in Hs as [Hc _].
  exists c. destruct l; cbn; by eexists.
Qed.

Lemma parse_relative l :
  Forall path_component l -> l <> [] ->
  PurePath.parse (Str.join "/" l) = mkPath "" l.
Proof.
  intros Hall Hne. destruct l as [|x l]; [done|].
  inversion Hall as [|? ? Hx Hl]; subst.
  destruct (join_head x l Hx) as (c & r & Hc & Hj).
  unfold PurePath.parse. rewrite Hj, splitroot_relative by done.
  rewrite <- Hj, split_join, filter_components_id; try done.
  eapply Forall_impl; [exact Hall|]. by intros y [_ Hy].
Qed.

(** Printing and parsing again gives the same path. *)
Lemma parse_str p : wf_path p -> PurePath.parse (PurePath.str p) = p.
Proof.
  destruct p as [root tail]. intros [Hroot Hall]. cbn in Hroot, Hall.
  assert (Forall (fun x => Str.contains "/" x = false) tail) as Hsep.
  { eapply Forall_impl; [exact Hall|]. by intros y [_ Hy]. }
  destruct tail as [|x l].
  { by destruct Hroot as [-> | [-> | ->]]. }
  pose proof Hall as Hall'. inversion Hall' as [|? ? Hx Hl]; subst.
  destruct (join_head x l Hx) as (c & r & Hc & Hj).
  destruct Hroot as [-> | [-> | ->]].
  - by apply parse_relative.
  - unfold PurePath.str, PurePath.parse. cbn [path_root path_tail].
    change ("/" +:+ Str.join "/" (x :: l)) with (String "/" (Str.join "/" (x :: l))).
    rewrite Hj, splitroot_one_slash by done.
    by rewrite <- Hj, split_join, filter_components_id.
  - unfold PurePath.str, PurePath.parse. cbn [path_root path_tail].
    change ("//" +:+ Str.join "/" (x :: l))
      with (String "/" (String "/" (Str.join "/" (x :: l)))).
    rewrite Hj, splitroot_two_slashes by done.
    by rewrite <- Hj, split_join, filter_components_id.
Qed.

Lemma str_not_empty p : wf_path p -> PurePath.str p <> "".
Proof.
  destruct p as [root tail]. intros [Hroot Hall]. cbn in Hroot, Hall.
  destruct tail as [|x l]; [by destruct Hroot as [-> | [-> | ->]]|].
  inversion Hall as [|? ? Hx Hl]; subst.
  destruct (join_head x l Hx) as (c & r & _ & Hj).
  unfold PurePath.str. cbn [path_root path_tail]. rewrite Hj.
  by destruct Hroot as [-> | [-> | ->]].
Qed.

(** A character other than the separator survives parsing and printing. *)
Lemma contains_str_parse c s :
  Ascii.eqb c "/" = false -> Ascii.eqb c "." = false ->
  Str.contains c (PurePath.str (PurePath.parse s)) = Str.contains c s.
Proof.
  intros Hc Hdot. destruct s as [|c1 r]; [cbn; by rewrite Hdot|].
  unfold PurePath.parse.
  destruct (splitroot_spec (String c1 r)) as [Hroot Hrel].
  destruct (PurePath.splitroot (String c1 r)) as [root rel]. cbn [fst snd] in *.
  rewrite <- (Hrel c Hc), <- (contains_split c "/" rel Hc).
  set (parts := Str.split "/" rel).
  assert (existsb (Str.contains c) (List.filter PurePath.keep_part parts)
          = existsb (Str.contains c) parts) as Hfilter.
  { induction parts as [|x parts IH]; cbn; [done|].
    destruct (PurePath.keep_part x) eqn:Hk; cbn; [by rewrite IH|].
    rewrite IH. destruct (keep_part_false x Hk) as [-> | ->]; [done|].
    cbn [Str.contains]. by rewrite Hdot. }
  rewrite <- Hfilter.
  unfold PurePath.str. cbn [path_root path_tail].
  destruct (List.filter PurePath.keep_part parts) as [|x l] eqn:Hl.
  - destruct Hroot as [-> | [-> | ->]]; rewrite ?contains_app;
      cbn [Str.contains existsb]; by rewrite ?Hdot, ?Hc.
  - rewrite <- (contains_join c (x :: l) Hc).
    destruct Hroot as [-> | [-> | ->]]; [done|..];
      rewrite contains_app; cbn [Str.contains]; by rewrite Hc.
Qed.

End ParseFacts.

(** ** Ancestors of a directory *)

Section AncestorFacts.

Implicit Types (fs : filesystem) (p : Path) (c : ascii).

Lemma stat_at_parent fs comps x : forall cur n,
  Fs.stat_at fs cur (comps ++ [x]) = inr n ->
  exists b, Fs.stat_at fs cur comps = inr (Dir b).
Proof.
  induction comps as [|y rest IH]; intros cur n; cbn.
  - destruct (Fs.lookup fs cur) as [[|b]|]; try discriminate. by exists b.
  - destruct (Fs.lookup fs cur) as [[|b]|]; try discriminate.
    destruct (Fs.too_long y); [discriminate | apply IH].
Qed.

Lemma length_append (s1 s2 : string) :
  String.length (s1 +:+ s2) = String.length s1 + String.length s2.
Proof.
  induction s1 as [|a s1 IH]; rewrite ?append_empty, ?append_String; [done|].
  cbn [String.length]. by rewrite IH.
Qed.

Lemma join_length_snoc (l : list string) (x : string) :
  String.length (Str.join "/" l) <= String.length (Str.join "/" (l ++ [x])).
Proof.
  induction l as [|a l IH]; [cbn; lia|].
  destruct l as [|b l].
  - change (Str.join "/" ([a] ++ [x])) with (a +:+ String "/" x).
    rewrite length_append. cbn [Str.join]. lia.
  - change (Str.join "/" ((a :: b :: l) ++ [x]))
      with (a +:+ String "/" (Str.join "/" ((b :: l) ++ [x]))).
    change (Str.join "/" (a :: b :: l))
      with (a +:+ String "/" (Str.join "/" (b :: l))).
    rewrite !length_append. cbn [String.length]. lia.
Qed.

Lemma str_with_tail (root x : string) (l : list string) :
  PurePath.str (mkPath root (x :: l)) = root +:+ Str.join "/" (x :: l).
Proof. by destruct root. Qed.

(** The parent prints no longer than the path, the one character of [.]
    apart. *)
Lemma str_parent_length p :
  String.length (PurePath.str (PurePath.parent p))
  <= Nat.max 1 (String.length (PurePath.str p)).
Proof.
  destruct p as [root tail]. unfold PurePath.parent. cbn [path_root path_tail].
  destruct tail as [|x init _] using rev_ind; [cbn [removelast]; lia|].
  rewrite removelast_last.
  assert (String.length (root +:+ Str.join "/" init)
          <= String.length (PurePath.str (mkPath root (init ++ [x])))) as Hle.
  { destruct init as [|a init]; cbn [app]; rewrite str_with_tail, !length_append.
    - cbn. lia.
    - pose proof (join_length_snoc (a :: init) x) as H. cbn [app] in H. lia. }
  destruct init as [|a init]; [|by rewrite str_with_tail; lia].
  destruct root; [cbn; lia|]. exact (Nat.le_trans _ _ _ Hle (Nat.le_max_r _ _)).
Qed.

Lemma path_fits_parent p : path_fits p = true -> path_fits (PurePath.parent p) = true.
Proof.
  unfold path_fits. intros Hfit%Nat.ltb_lt. apply Nat.ltb_lt.
  pose proof (str_parent_length p) as Hle.
  assert (1 < Fs.PATH_MAX) as Hone by (unfold Fs.PATH_MAX; lia).
  lia.
Qed.

Lemma contains_str c p :
  Ascii.eqb c "/" = false -> Ascii.eqb c "." = false ->
  Str.contains c (PurePath.str p) =
  Str.contains c (path_root p) || existsb (Str.contains c) (path_tail p).
Proof.
  intros Hc Hdot. destruct p as [root tail]. unfold PurePath.str. cbn [path_root path_tail].
  destruct root as [|r0 root], tail as [|x l];
    rewrite ?contains_app, ?contains_join by done; try done.
  cbn [Str.contains existsb]. by rewrite Hdot.
Qed.

Lemma existsb_removelast {A} (f : A -> bool) (l : list A) :
  existsb f (removelast l) = true -> existsb f l = true.
Proof.
  induction l as [|a l IH]; [done|]. destruct l as [|b l]; [done|].
  cbn [removelast existsb] in *.
  intros [->|H]%orb_true_iff; [done|]. rewrite (IH H). by rewrite orb_true_r.
Qed.

(** The parent of a directory is a directory. *)
Lemma dir_at_parent fs p :
  dir_at fs p = true -> dir_at fs (PurePath.parent p) = true.
Proof.
  unfold dir_at. intros [[Hnul Hfits]%andb_true_iff Hst]%andb_true_iff.
  apply andb_true_iff. split; [apply andb_true_iff; split|].
  - apply negb_true_iff in Hnul. apply negb_true_iff.
    rewrite contains_str in Hnul |- * by done.
    apply orb_false_elim in Hnul as [Hr Ht]. cbn [PurePath.parent path_root path_tail].
    rewrite Hr. cbn [orb].
    destruct (existsb _ (removelast _)) eqn:Hex; [|done].
    apply existsb_removelast in Hex. congruence.
  - by apply path_fits_parent.
  - destruct p as [root tail]. unfold PurePath.parent, Fs.start in *.
    cbn [path_root path_tail] in *.
    destruct tail as [|x init _] using rev_ind; [exact Hst|].
    rewrite removelast_last.
    destruct (Fs.stat_at _ _ (init ++ [x])) as [|n] eqn:Hn; [done|].
    by destruct (stat_at_parent _ _ _ _ _ Hn) as [b ->].
Qed.

Lemma dir_at_ancestors fs p (k : nat) :
  dir_at fs p = true -> dir_at fs (Nat.iter k PurePath.parent p) = true.
Proof.
  intros Hd. induction k as [|k IH]; [done|]. cbn [Nat.iter]. by apply dir_at_parent.
Qed.

End AncestorFacts.

(** ** Properties of the module beyond the claims *)

Section ExtraHelpers.

Implicit Types (s : string) (w : world).

(** Two arguments that parse to the same path make the same call. *)
Lemma initialize_memory_parse s s' :
  PurePath.parse s = PurePath.parse s' -> initialize_memory s = initialize_memory s'.
Proof. intros H. unfold initialize_memory. by rewrite H. Qed.


End ExtraHelpers.

(** X1.  No sequence of calls removes or alters anything on the disk: the
    working directory, the root and every node that was there are as they
    were, every node that is new is a directory, and [sys] is untouched. *)
Theorem calls_only_add_directories (ops : list op) (w : world) :
  sys (exec ops w) = sys w /\
  cwd (disk (exec ops w)) = cwd (disk w) /\
  root_writable (disk (exec ops w)) = root_writable (disk w) /\
  (forall p n, Fs.lookup (disk w) p = Some n ->
               Fs.lookup (disk (exec ops w)) p = Some n) /\
  (forall p n, Fs.lookup (disk (exec ops w)) p = Some n ->
               Fs.lookup (disk w) p = Some n \/ is_Dir n = true).
Proof.
  destruct (disk_grows_exec ops w) as [[(Hr & Hc & Hold) Hnew] Hsys].
  by repeat split.
Qed.

(** X2.  After any sequence of calls [get_memory_status] reports:
    ["initialized"] and ["available"] true exactly when the flag was set
    before or some [initialize_memory] of the sequence succeeded;
    ["kb_path"] the path of the last [initialize_memory] call, whether that
    call succeeded or not, and the earlier value when there was none. *)
Theorem status_after_calls (ops : list op) (w : world) :
  get_memory_status (exec ops w) =
    (Return
       [("initialized",
         VBool (_initialized (mem w) || existsb initialize_succeeded (trace ops w)));
        ("kb_path",
         match last_initialize ops with
         | Some s => VStr (PurePath.str (PurePath.parse s))
         | None => match _kb_path (mem w) with
                   | Some p => VStr (PurePath.str p)
                   | None => VNone
                   end
         end);
        ("python_version", VStr (version (sys w)));
        ("available",
         VBool (_initialized (mem w) || existsb initialize_succeeded (trace ops w)))],
     exec ops w).
Proof.
  rewrite get_memory_status_eq, initialized_exec, kb_path_exec.
  destruct (disk_grows_exec ops w) as [_ ->].
  by destruct (last_initialize ops).
Qed.

(** X3.  A sequence of calls with no [initialize_memory] in it changes
    nothing: globals, disk and [sys] are as before. *)
Theorem calls_without_initialize_change_nothing (ops : list op) (w : world) :
  forallb (fun o => negb (is_initialize o)) ops = true ->
  exec ops w = w.
Proof. apply exec_without_initialize. Qed.

Lemma calls_without_initialize_change_nothing_witness :
  let ops := [Search "hello" None; Store "c1" "hi" "hello" None; GetStatus;
              TestConnection; Search "x" (Some 3%Z)] in
  forallb (fun o => negb (is_initialize o)) ops = true /\
  exec ops sample_world = sample_world.
Proof.
  intros ops. split; [reflexivity|].
  apply (calls_without_initialize_change_nothing ops sample_world). reflexivity.
Defined.

(** X4.  From a freshly loaded module, as long as no [initialize_memory]
    call has succeeded, [search_memory] and [store_conversation] keep
    returning the not-initialized failure, also after failed
    [initialize_memory] calls that have set [_kb_path]. *)
Theorem not_initialized_until_first_success (fs : filesystem) (si : sysinfo)
    (ops : list op) (query : string) (limit : Z)
    (conversation_id user_message assistant_message : string)
    (metadata : option (gmap string string)) :
  existsb initialize_succeeded (trace ops (initial_world fs si)) = false ->
  fst (search_memory query limit (exec ops (initial_world fs si))) =
    Return [("success", VBool false);
            ("message", VStr "Memory service not initialized");
            ("results", VList [])] /\
  fst (store_conversation conversation_id user_message assistant_message metadata
         (exec ops (initial_world fs si))) =
    Return [("success", VBool false);
            ("message", VStr "Memory service not initialized")].
Proof.
  intros Hn.
  rewrite search_memory_eq, store_conversation_eq.
  by rewrite (initialized_false_until_success fs si ops Hn).
Qed.

Lemma not_initialized_until_first_success_witness :
  let ops := [Initialize "/etc/passwd/x"; GetStatus] in
  existsb initialize_succeeded (trace ops (initial_world sample_fs sample_sys)) = false /\
  _kb_path (mem (exec ops (initial_world sample_fs sample_sys)))
    = Some (mkPath "/" ["etc"; "passwd"; "x"]) /\
  fst (search_memory "hello" 5 (exec ops (initial_world sample_fs sample_sys))) =
    Return [("success", VBool false);
            ("message", VStr "Memory service not initialized");
            ("results", VList [])].
Proof.
  intros ops.
  assert (existsb initialize_succeeded (trace ops (initial_world sample_fs sample_sys))
          = false) as Hn by (vm_compute; reflexivity).
  split; [exact Hn|]. split; [vm_compute; reflexivity|].
  exact (proj1 (not_initialized_until_first_success sample_fs sample_sys ops
                  "hello" 5 "c1" "hi" "hello" None Hn)).
Defined.

(** X5.  After a successful [initialize_memory] the stored path names a
    directory that exists, and so does every ancestor of it (its parent,
    the parent of that, and so on). *)
Theorem initialize_success_directory_exists (s : string) (w : world) (k : nat) :
  succeeded (fst (initialize_memory s w)) = true ->
  kb_dir_exists (snd (initialize_memory s w)) = true /\
  dir_at (disk (snd (initialize_memory s w)))
         (Nat.iter k PurePath.parent (PurePath.parse s)) = true.
Proof.
  intros Hs.
  destruct (initialize_succeeded_inv s w Hs) as (fs' & _ & Hd & ->).
  rewrite kb_dir_exists_eq. cbn [snd mem disk _kb_path].
  split; [exact Hd | by apply dir_at_ancestors].
Qed.

Lemma initialize_success_directory_exists_witness :
  succeeded (fst (initialize_memory "/var/lib/cognical" sample_world)) = true /\
  kb_dir_exists (snd (initialize_memory "/var/lib/cognical" sample_world)) = true /\
  dir_at (disk (snd (initialize_memory "/var/lib/cognical" sample_world)))
         (mkPath "/" ["var"]) = true.
Proof.
  assert (succeeded (fst (initialize_memory "/var/lib/cognical" sample_world)) = true)
    as Hs by (vm_compute; reflexivity).
  split; [exact Hs|].
  exact (initialize_success_directory_exists "/var/lib/cognical" sample_world 2 Hs).
Defined.

(** X6.  [get_memory_status] right after a successful [initialize_memory]
    reports ["initialized"] and ["available"] true and, under ["kb_path"],
    the very string the call returned under ["kb_path"]. *)
Theorem status_agrees_with_initialize (s : string) (w : world) :
  succeeded (fst (initialize_memory s w)) = true ->
  exists d_init d_status,
    fst (initialize_memory s w) = Return d_init /\
    fst (get_memory_status (snd (initialize_memory s w))) = Return d_status /\
    dict_get "initialized" d_status = Some (VBool true) /\
    dict_get "available" d_status = Some (VBool true) /\
    dict_get "kb_path" d_status = dict_get "kb_path" d_init /\
    dict_get "kb_path" d_init = Some (VStr (PurePath.str (PurePath.parse s))).
Proof.
  intros Hs.
  destruct (initialize_succeeded_inv s w Hs) as (fs' & _ & _ & ->).
  rewrite get_memory_status_eq. cbn [fst snd mem _kb_path _initialized].
  by eexists _, _.
Qed.

Lemma status_agrees_with_initialize_witness :
  succeeded (fst (initialize_memory "data//kb/" sample_world)) = true /\
  exists d_status,
    fst (get_memory_status (snd (initialize_memory "data//kb/" sample_world)))
      = Return d_status /\
    dict_get "kb_path" d_status = Some (VStr "data/kb").
Proof.
  assert (succeeded (fst (initialize_memory "data//kb/" sample_world)) = true)
    as Hs by (vm_compute; reflexivity).
  split; [exact Hs|].
  destruct (status_agrees_with_initialize "data//kb/" sample_world Hs)
    as (d_init & d_status & _ & Hst & _ & _ & Hkb & Hinit).
  exists d_status. split; [exact Hst|]. by rewrite Hkb, Hinit.
Defined.





(** X9.  [initialize_memory] on a string with a NUL character in it fails
    with the [ValueError] text [embedded null byte], whatever is on the
    disk; the disk is untouched and the flag keeps its value, but
    [_kb_path] holds the new path. *)
Theorem initialize_nul_byte (s : string) (w : world) :
  Str.contains NUL s = true ->
  initialize_memory s w =
    (Return [("success", VBool false);
             ("message", VStr "Failed to initialize: embedded null byte");
             ("error", VStr "embedded null byte")],
     mkWorld (mkGlobals (Some (PurePath.parse s)) (_initialized (mem w)))
             (disk w) (sys w)).
Proof.
  intros Hnul.
  assert (Str.contains NUL (PurePath.str (PurePath.parse s)) = true) as Hp.
  { by rewrite contains_str_parse. }
  apply (initialize_memory_raised s w (ValueError "embedded null byte")).
  destruct (Path_mkdir_raised (PurePath.parse s)
              (with_globals (mkGlobals (Some (PurePath.parse s))
                                       (_initialized (mem w))) w)
              (ValueError "embedded null byte")) as (e' & Hmk & He).
  - unfold os_mkdir. by rewrite Hp.
  - done.
  - unfold dir_at, with_globals. cbn [disk]. by rewrite Hp.
  - by rewrite <- (He eq_refl).
Qed.

Lemma initialize_nul_byte_witness :
  Str.contains NUL (String "k" (String NUL "b")) = true /\
  failed (fst (initialize_memory (String "k" (String NUL "b")) sample_world)) = true /\
  disk (snd (initialize_memory (String "k" (String NUL "b")) sample_world))
    = disk sample_world.
Proof.
  split; [reflexivity|].
  rewrite (initialize_nul_byte (String "k" (String NUL "b")) sample_world eq_refl).
  split; reflexivity.
Defined.

(** X10.  The ["kb_path"] string of a success map can be given back to
    [initialize_memory]: the call succeeds again with the same map and
    leaves globals and disk exactly as they were. *)
Theorem initialize_with_returned_path (s : string) (w : world) :
  succeeded (fst (initialize_memory s w)) = true ->
  exists d k,
    fst (initialize_memory s w) = Return d /\
    dict_get "kb_path" d = Some (VStr k) /\
    initialize_memory k (snd (initialize_memory s w)) = initialize_memory s w.
Proof.
  intros Hs.
  destruct (initialize_succeeded_inv s w Hs) as (fs' & _ & Hd & Heq).
  exists (initialize_ok (PurePath.parse s)), (PurePath.str (PurePath.parse s)).
  rewrite Heq. split; [reflexivity|]. split; [reflexivity|]. cbn [snd].
  rewrite (initialize_memory_parse _ s) by apply parse_str, parse_wf.
  by rewrite initialize_memory_existing.
Qed.

Lemma initialize_with_returned_path_witness :
  succeeded (fst (initialize_memory "//srv/./kb//" sample_world)) = true /\
  initialize_memory "//srv/kb" (snd (initialize_memory "//srv/./kb//" sample_world))
    = initialize_memory "//srv/./kb//" sample_world.
Proof.
  assert (succeeded (fst (initialize_memory "//srv/./kb//" sample_world)) = true)
    as Hs by (vm_compute; reflexivity).
  split; [exact Hs|].
  destruct (initialize_with_returned_path "//srv/./kb//" sample_world Hs)
    as (d & k & Hd & Hk & Hre).
  assert (fst (initialize_memory "//srv/./kb//" sample_world)
          = Return (initialize_ok (mkPath "//" ["srv"; "kb"]))) as Hc
    by (vm_compute; reflexivity).
  rewrite Hc in Hd. injection Hd as <-.
  injection Hk as <-. exact Hre.
Defined.

(** X11.  The path [initialize_memory] stores and reports is never the
    empty string, for no argument: after any call, successful or not,
    [get_memory_status] reports a non-empty ["kb_path"] string. *)
Theorem reported_kb_path_not_empty (s : string) (w : world) :
  exists k,
    dict_get "kb_path"
      match fst (get_memory_status (snd (initialize_memory s w))) with
      | Return d => d
      | Raise _ => []
      end = Some (VStr k) /\
    k <> "".
Proof.
  exists (PurePath.str (PurePath.parse s)). split; [|apply str_not_empty, parse_wf].
  rewrite get_memory_status_eq. cbn [fst].
  by destruct (initialize_memory_cases s w) as (fs' & _ & [[-> _] | [e ->]]).
Qed.

(** X13.  [initialize_memory] on a path that is a directory already
    succeeds and writes nothing to the disk, also where the directory and
    its parent are read-only. *)
Theorem initialize_existing_directory (s : string) (w : world) :
  dir_at (disk w) (PurePath.parse s) = true ->
  initialize_memory s w =
    (Return [("success", VBool true);
             ("message", VStr ("Memory service initialized at " +:+
                               PurePath.str (PurePath.parse s)));
             ("kb_path", VStr (PurePath.str (PurePath.parse s)))],
     mkWorld (mkGlobals (Some (PurePath.parse s)) true) (disk w) (sys w)).
Proof. apply initialize_memory_existing. Qed.

Lemma initialize_existing_directory_witness :
  dir_at (disk sample_world) (PurePath.parse "/etc") = true /\
  Fs.lookup (disk sample_world) ["etc"] = Some (Dir false) /\
  succeeded (fst (initialize_memory "/etc" sample_world)) = true /\
  disk (snd (initialize_memory "/etc" sample_world)) = disk sample_world.
Proof.
  assert (dir_at (disk sample_world) (PurePath.parse "/etc") = true)
    as Hd by (vm_compute; reflexivity).
  split; [exact Hd|]. split; [vm_compute; reflexivity|].
  rewrite (initialize_existing_directory "/etc" sample_world Hd).
  split; reflexivity.
Defined.
